(** * connect-dynamodb: the session store of [lib/connect-dynamodb.js]

    A shallow embedding of the DynamoDB-backed session store and of the
    parts of its environment its behaviour depends on:

    - [JS]: the JavaScript values the store handles and the language
      operations its code applies to them (property reads, truthiness,
      [typeof x === 'number'], [>=], [toString()]);
    - [JSON]: the [JSON.stringify]/[JSON.parse] pair, as an interface, and an
      executable instance of it;
    - [Dynamo]: the table client the store talks to ([getItem], [putItem],
      [deleteItem], [updateItem], [describeTable], [createTable]) over an
      in-memory table, with the log of the requests it received;
    - [DynamoDBStore]: the store itself, its constructor and [get],
      [set], [destroy] and [touch]. ([reap] has an empty body and
      [clearInterval] has no timer to clear: the reap interval is 0.)

    Operations run to completion one at a time: a call takes the world
    (tables and request log) and the clock value it reads, and gives the
    arguments its completion callback is invoked with, or the exception
    that escapes the call, together with the new world. The callbacks the
    store is given are taken not to throw. *)

From stdpp Require Import base option list strings gmap pretty.
From Stdlib Require Import ZArith Lia Ascii String.

Set Warnings "-register-all".
Local Open Scope string_scope.
Local Open Scope Z_scope.

(** ** JavaScript values and operations *)

Module JS.

(** Values are trees: primitives, arrays and plain objects (own data
    properties in order, no accessor, no function, [Object.prototype] as
    prototype). Numbers are the integer-valued ones, kept exact: epoch
    milliseconds and ages in milliseconds; rounding, fractions, [NaN] and
    the infinities of IEEE doubles are not represented. Strings are
    sequences of 8-bit characters. *)
Inductive value : Type :=
| Undefined
| Null
| Bool (b : bool)
| Num (n : Z)
| Str (s : string)
| Arr (elems : list value)
| Obj (props : list (string * value)).

Inductive exn : Type :=
| TypeError (msg : string)
| SyntaxError (msg : string)
| ServiceError (code : string).

(** A computation that returns normally or throws. *)
Inductive throws (A : Type) : Type :=
| Return (a : A)
| Throw (e : exn).
Arguments Return {A} a.
Arguments Throw {A} e.

#[global] Instance throws_ret : MRet throws := @Return.
#[global] Instance throws_bind : MBind throws := λ A B k m,
  match m with Return a => k a | Throw e => Throw e end.

(** First binding of a name in a property list. *)
Fixpoint assoc {A : Type} (k : string) (l : list (string * A)) : option A :=
  match l with
  | [] => None
  | (k', a) :: l' => if String.eqb k' k then Some a else assoc k l'
  end.

(** Defining a property: a name already there keeps its place and takes
    the new value, a new name goes last. *)
Fixpoint assign {A : Type} (k : string) (a : A) (l : list (string * A)) : list (string * A) :=
  match l with
  | [] => [(k, a)]
  | (k', a') :: l' =>
      if String.eqb k' k then (k, a) :: l' else (k', a') :: assign k a l'
  end.

Definition has_own {A : Type} (k : string) (l : list (string * A)) : bool :=
  match assoc k l with Some _ => true | None => false end.

(** [v.k] for the property names the store reads ([Item], [expires],
    [sess], [S], [cookie], [maxAge]): none of them is an array index or
    inherited from a built-in prototype, so the read gives the own data
    property of a plain object and [undefined] on everything else, and
    throws on [undefined] and [null]. *)
Definition Get (v : value) (k : string) : throws value :=
  match v with
  | Undefined => Throw (TypeError ("Cannot read properties of undefined (reading '" +:+ k +:+ "')"))
  | Null => Throw (TypeError ("Cannot read properties of null (reading '" +:+ k +:+ "')"))
  | Obj props => Return (default Undefined (assoc k props))
  | _ => Return Undefined
  end.

Definition ToBoolean (v : value) : bool :=
  match v with
  | Undefined | Null => false
  | Bool b => b
  | Num n => negb (n =? 0)
  | Str s => negb (String.eqb s "")
  | Arr _ | Obj _ => true
  end.

(** [Number.prototype.toString] and the Number case of [ToString]: the
    decimal digits, with a leading minus sign (exponent notation starts at
    1e21, beyond any clock value). *)
Definition Number_toString (n : Z) : string := pretty n.

Fixpoint join (sep : string) (l : list string) : string :=
  match l with
  | [] => ""
  | [s] => s
  | s :: l' => s +:+ sep +:+ join sep l'
  end.

(** [ToString]. An object becomes a primitive through the [toString] it
    finds: [Object.prototype.toString] gives "[object Object]", and
    [Array.prototype.toString] joins the elements with commas ([undefined]
    and [null] elements give the empty string). An own property named
    [toString] shadows the inherited method and, being data, cannot be
    called: the conversion throws. *)
Fixpoint ToString (v : value) : throws string :=
  match v with
  | Undefined => Return "undefined"
  | Null => Return "null"
  | Bool true => Return "true"
  | Bool false => Return "false"
  | Num n => Return (Number_toString n)
  | Str s => Return s
  | Arr elems =>
      (fix elements (l : list value) : throws (list string) :=
         match l with
         | [] => Return []
         | e :: l' =>
             s ← match e with
                 | Undefined | Null => Return ""
                 | _ => ToString e
                 end;
             r ← elements l';
             Return (s :: r)
         end) elems ≫= λ parts, Return (join "," parts)
  | Obj props =>
      if has_own "toString" props
      then Throw (TypeError "Cannot convert object to primitive value")
      else Return "[object Object]"
  end.

(** The method call [v.toString()]. *)
Definition toString (v : value) : throws string :=
  match v with
  | Undefined => Throw (TypeError "Cannot read properties of undefined (reading 'toString')")
  | Null => Throw (TypeError "Cannot read properties of null (reading 'toString')")
  | _ => ToString v
  end.

Definition is_white_space (c : ascii) : bool :=
  let n := Ascii.N_of_ascii c in
  ((9 <=? n) && (n <=? 13) || (n =? 32) || (n =? 160))%N.

Fixpoint trim_left (s : string) : string :=
  match s with
  | String c s' => if is_white_space c then trim_left s' else s
  | EmptyString => s
  end.

Definition trim (s : string) : string :=
  String.rev (trim_left (String.rev (trim_left s))).

Definition digit (c : ascii) : option Z :=
  let n := Ascii.N_of_ascii c in
  if ((48 <=? n) && (n <=? 57))%N then Some (Z.of_N n - 48) else None.

Fixpoint digits (acc : Z) (s : string) : option Z :=
  match s with
  | EmptyString => Some acc
  | String c s' => d ← digit c; digits (10 * acc + d) s'
  end.

(** [ToNumber] on a string, [None] standing for [NaN]: surrounding white
    space is dropped, the empty string is 0 and a signed run of decimal
    digits is its value. The other numeric literals (fraction, exponent,
    hexadecimal, [Infinity]) denote numbers the integer model does not
    have; like the strings that are no numeral at all they give [None]
    here. *)
Definition StringToNumber (s : string) : option Z :=
  match trim s with
  | EmptyString => Some 0
  | String "+"%char (String _ _ as ds) => digits 0 ds
  | String "-"%char (String _ _ as ds) => Z.opp <$> digits 0 ds
  | ds => digits 0 ds
  end.

(** [ToNumber(ToPrimitive(v, hint Number))], [None] standing for [NaN]. *)
Definition ToNumber (v : value) : throws (option Z) :=
  match v with
  | Undefined => Return None
  | Null => Return (Some 0)
  | Bool b => Return (Some (if b then 1 else 0))
  | Num n => Return (Some n)
  | Str s => Return (StringToNumber s)
  | Arr _ | Obj _ => s ← ToString v; Return (StringToNumber s)
  end.

(** [n >= v] for a number [n]: the operand is made a number, and the
    comparison is false when that is [NaN]. *)
Definition ge (n : Z) (v : value) : throws bool :=
  m ← ToNumber v;
  Return (match m with Some k => k <=? n | None => false end).

End JS.

(** ** JSON *)

Module JSON.
Import JS.

(** [JSON.stringify] and [JSON.parse] are built into the language; the
    store is verified against this interface of them. [stringify] gives
    [None] where the built-in returns [undefined]. The two laws are the
    Number and Object cases of the language's serialisation: a number is
    written as [ToString] writes it, and an object is written as a text,
    which starts with a brace. *)
Class Codec : Type := {
  stringify : value → option string;
  parse : string → throws value;
  stringify_Num : ∀ n, stringify (Num n) = Some (Number_toString n);
  stringify_Obj : ∀ props, ∃ text, stringify (Obj props) = Some text ∧ text ≠ ""
}.

(** The result of [JSON.stringify(v)] as a JavaScript value. *)
Definition stringified `{Codec} (v : value) : value :=
  match stringify v with Some text => Str text | None => Undefined end.

(** A payload survives serialisation when parsing its text gives it back. *)
Definition serializable `{Codec} (v : value) : Prop :=
  ∃ text, stringify v = Some text ∧ parse text = Return v.

End JSON.

(** An executable codec: JSON texts over the values of [JS.value]. *)

Module JSONText.
Import JS.

Definition hex_digit (n : N) : ascii :=
  ascii_of_N (if (n <? 10)%N then 48 + n else 87 + n)%N.

Definition dquote : ascii := ascii_of_N 34.
Definition backslash : ascii := ascii_of_N 92.

(** One character inside a JSON string literal. *)
Definition quote_char (c : ascii) : string :=
  let n := N_of_ascii c in
  if (n =? 8)%N then String backslash "b"
  else if (n =? 9)%N then String backslash "t"
  else if (n =? 10)%N then String backslash "n"
  else if (n =? 12)%N then String backslash "f"
  else if (n =? 13)%N then String backslash "r"
  else if (n =? 34)%N then String backslash (String dquote "")
  else if (n =? 92)%N then String backslash (String backslash "")
  else if (n <? 32)%N then
    String backslash ("u00" +:+ String (hex_digit (n / 16)) (String (hex_digit (n mod 16)) ""))
  else String c "".

Fixpoint quote_chars (s : string) : string :=
  match s with
  | EmptyString => ""
  | String c s' => quote_char c +:+ quote_chars s'
  end.

Definition quote (s : string) : string :=
  String dquote (quote_chars s +:+ String dquote "").

(** [JSON.stringify]: an [undefined] array element is written [null], an
    [undefined] property is left out. *)
Fixpoint serialize (v : value) : option string :=
  match v with
  | Undefined => None
  | Null => Some "null"
  | Bool true => Some "true"
  | Bool false => Some "false"
  | Num n => Some (Number_toString n)
  | Str s => Some (quote s)
  | Arr elems =>
      Some ("[" +:+ join "," (map (λ e, default "null" (serialize e)) elems) +:+ "]")
  | Obj props =>
      Some ("{" +:+ join "," (omap (λ kv, (λ t, quote kv.1 +:+ ":" +:+ t) <$> serialize kv.2) props) +:+ "}")
  end.

(** *** Reading a text *)

Definition is_json_space (c : ascii) : bool :=
  let n := N_of_ascii c in
  ((n =? 32) || (n =? 9) || (n =? 10) || (n =? 13))%N.

Fixpoint skip_space (s : string) : string :=
  match s with
  | String c s' => if is_json_space c then skip_space s' else s
  | EmptyString => s
  end.

(** [s] without its prefix [p]. *)
Fixpoint strip (p s : string) : option string :=
  match p, s with
  | EmptyString, _ => Some s
  | String a p', String b s' => if Ascii.eqb a b then strip p' s' else None
  | String _ _, EmptyString => None
  end.

Definition hex_value (c : ascii) : option N :=
  let n := N_of_ascii c in
  if ((48 <=? n) && (n <=? 57))%N then Some (n - 48)%N
  else if ((97 <=? n) && (n <=? 102))%N then Some (n - 87)%N
  else if ((65 <=? n) && (n <=? 70))%N then Some (n - 55)%N
  else None.

(** The character an escape letter stands for. *)
Definition unescape (e : ascii) : option ascii :=
  let n := N_of_ascii e in
  if (n =? 34)%N then Some dquote
  else if (n =? 92)%N then Some backslash
  else if (n =? 47)%N then Some "/"%char
  else if (n =? 98)%N then Some (ascii_of_N 8)
  else if (n =? 102)%N then Some (ascii_of_N 12)
  else if (n =? 110)%N then Some (ascii_of_N 10)
  else if (n =? 114)%N then Some (ascii_of_N 13)
  else if (n =? 116)%N then Some (ascii_of_N 9)
  else None.

(** The characters of a string literal after its opening quote, up to the
    closing one, and the rest of the text. A [\u] escape above the 8-bit
    range names a character the model does not have and is refused. *)
Fixpoint string_body (s : string) : option (string * string) :=
  match s with
  | EmptyString => None
  | String c r =>
      let n := N_of_ascii c in
      if (n =? 34)%N then Some ("", r)
      else if (n =? 92)%N then
        match r with
        | String e r' =>
            if (N_of_ascii e =? 117)%N then
              match r' with
              | String h1 (String h2 (String h3 (String h4 r''))) =>
                  a ← hex_value h1; b ← hex_value h2;
                  c ← hex_value h3; d ← hex_value h4;
                  if ((a =? 0) && (b =? 0))%N then
                    tr ← string_body r'';
                    Some (String (ascii_of_N (16 * c + d)) tr.1, tr.2)
                  else None
              | _ => None
              end
            else
              ch ← unescape e;
              tr ← string_body r';
              Some (String ch tr.1, tr.2)
        | EmptyString => None
        end
      else if (n <? 32)%N then None
      else tr ← string_body r; Some (String c tr.1, tr.2)
  end.

Fixpoint take_digits (acc : Z) (s : string) : Z * string :=
  match s with
  | String c s' =>
      match digit c with
      | Some d => take_digits (10 * acc + d) s'
      | None => (acc, s)
      end
  | EmptyString => (acc, s)
  end.

(** After a numeral, a fraction or an exponent would start here. *)
Definition continues_numeral (s : string) : bool :=
  match s with
  | String c _ =>
      let n := N_of_ascii c in ((n =? 46) || (n =? 101) || (n =? 69))%N
  | EmptyString => false
  end.

(** An unsigned integer numeral: a single 0, or digits that do not start
    with 0. A numeral with a fraction or an exponent is a number the
    integer model does not have and is refused. *)
Definition natural (s : string) : option (Z * string) :=
  match s with
  | String c s' =>
      d ← digit c;
      let nr := if (d =? 0)%Z then (0, s') else take_digits d s' in
      if continues_numeral nr.2 then None else Some nr
  | EmptyString => None
  end.

Definition number (s : string) : option (Z * string) :=
  match s with
  | String c s' =>
      if (N_of_ascii c =? 45)%N
      then nr ← natural s'; Some (- nr.1, nr.2)
      else natural s
  | EmptyString => None
  end.

Definition object_of (members : list (string * value)) : value :=
  Obj (fold_left (λ props kv, assign kv.1 kv.2 props) members []).

(** The grammar of values. Every call consumes a character before it
    calls again, so the length of the text bounds the calls. *)
Fixpoint element (fuel : nat) (s : string) : option (value * string) :=
  match fuel with
  | O => None
  | S fuel' =>
      match skip_space s with
      | String c r =>
          let n := N_of_ascii c in
          if (n =? 123)%N then
            match skip_space r with
            | String c' r' =>
                if (N_of_ascii c' =? 125)%N then Some (Obj [], r')
                else ms ← members fuel' r; Some (object_of ms.1, ms.2)
            | EmptyString => None
            end
          else if (n =? 91)%N then
            match skip_space r with
            | String c' r' =>
                if (N_of_ascii c' =? 93)%N then Some (Arr [], r')
                else es ← elements fuel' r; Some (Arr es.1, es.2)
            | EmptyString => None
            end
          else if (n =? 34)%N then tr ← string_body r; Some (Str tr.1, tr.2)
          else if (n =? 116)%N then rest ← strip "rue" r; Some (Bool true, rest)
          else if (n =? 102)%N then rest ← strip "alse" r; Some (Bool false, rest)
          else if (n =? 110)%N then rest ← strip "ull" r; Some (Null, rest)
          else nr ← number (String c r); Some (Num nr.1, nr.2)
      | EmptyString => None
      end
  end
with elements (fuel : nat) (s : string) : option (list value * string) :=
  match fuel with
  | O => None
  | S fuel' =>
      vr ← element fuel' s;
      match skip_space vr.2 with
      | String c r =>
          if (N_of_ascii c =? 44)%N then es ← elements fuel' r; Some (vr.1 :: es.1, es.2)
          else if (N_of_ascii c =? 93)%N then Some ([vr.1], r)
          else None
      | EmptyString => None
      end
  end
with members (fuel : nat) (s : string) : option (list (string * value) * string) :=
  match fuel with
  | O => None
  | S fuel' =>
      match skip_space s with
      | String q r =>
          if (N_of_ascii q =? 34)%N then
            kr ← string_body r;
            match skip_space kr.2 with
            | String c r1 =>
                if (N_of_ascii c =? 58)%N then
                  vr ← element fuel' r1;
                  match skip_space vr.2 with
                  | String c' r2 =>
                      if (N_of_ascii c' =? 44)%N
                      then ms ← members fuel' r2; Some ((kr.1, vr.1) :: ms.1, ms.2)
                      else if (N_of_ascii c' =? 125)%N then Some ([(kr.1, vr.1)], r2)
                      else None
                  | EmptyString => None
                  end
                else None
            | EmptyString => None
            end
          else None
      | EmptyString => None
      end
  end.

(** [JSON.parse]: one value, white space around it, nothing else. *)
Definition deserialize (text : string) : throws value :=
  match element (S (String.length text)) text with
  | Some (v, rest) =>
      match skip_space rest with
      | EmptyString => Return v
      | String _ _ => Throw (SyntaxError "Unexpected non-whitespace character after JSON")
      end
  | None => Throw (SyntaxError "Unexpected token in JSON")
  end.

(** *** Plain values

    The vocabulary of the round trip: the values a text denotes, and what
    reading their texts takes. *)

Definition is_digit (c : ascii) : bool :=
  match digit c with Some _ => true | None => false end.

(** A text a numeral can stand before: it starts with no digit, point
    or exponent letter. *)
Definition ends_numeral (s : string) : bool :=
  match s with
  | String c _ => negb (is_digit c) && negb (continues_numeral s)
  | EmptyString => true
  end.

(** The part of [natural] that reads the digits. *)
Definition leading (s : string) : option (Z * string) :=
  match s with
  | String c s' => d ← digit c; Some (if (d =? 0)%Z then (0, s') else take_digits d s')
  | EmptyString => None
  end.

(** A numeral starts with a digit or a minus sign. *)
Definition starts_numeral (c : ascii) : bool :=
  is_digit c || (N_of_ascii c =? 45)%N.

(** The values JSON texts denote: no [undefined] inside, and no name
    twice in an object. *)
Fixpoint plain (v : value) : bool :=
  match v with
  | Undefined => false
  | Arr elems => forallb plain elems
  | Obj props => forallb (λ kv, plain kv.2) props && bool_decide (NoDup (map fst props))
  | _ => true
  end.

(** The calls reading a value takes: no more than its text has characters. *)
Fixpoint weight (v : value) : nat :=
  match v with
  | Arr elems => S (fold_right (λ e n, S (weight e + n)) 0%nat elems)
  | Obj props => S (fold_right (λ kv n, S (weight kv.2 + n)) 0%nat props)
  | _ => 1
  end.

(** The first character of a value's text. *)
Definition starts_value (c : ascii) : bool :=
  let n := N_of_ascii c in
  starts_numeral c
  || (n =? 123)%N || (n =? 91)%N || (n =? 34)%N || (n =? 116)%N || (n =? 102)%N || (n =? 110)%N.

(** What reading a value's text gives, at a given fuel. *)
Definition reads (fuel : nat) : Prop :=
  ∀ v text rest,
    (weight v ≤ fuel)%nat → plain v = true → serialize v = Some text →
    ends_numeral rest = true →
    element fuel (text +:+ rest) = Some (v, rest).

Definition element_text (e : value) : string := default "null" (serialize e).

Definition weight_elems (elems : list value) : nat :=
  fold_right (λ e n, S (weight e + n)) 0%nat elems.

Definition member_text (kv : string * value) : string :=
  quote kv.1 +:+ ":" +:+ element_text kv.2.

Definition weight_props (props : list (string * value)) : nat :=
  fold_right (λ kv n, S (weight kv.2 + n)) 0%nat props.

Lemma serialize_Obj props : ∃ text, serialize (Obj props) = Some text ∧ text ≠ "".
Proof. simpl. eexists. split; [reflexivity | discriminate]. Qed.

#[global] Instance codec : JSON.Codec := {|
  JSON.stringify := serialize;
  JSON.parse := deserialize;
  JSON.stringify_Num := λ n, eq_refl;
  JSON.stringify_Obj := serialize_Obj
|}.

End JSONText.

(** ** The table client

    The client is the collaborator the store is given ([options.client],
    or a new [AWS.DynamoDB]). Its model keeps what the behaviour of the
    store depends on: items are held under their key, a put replaces the
    item, a delete removes it, an update sets one attribute, and a request
    on a table that does not exist, or a malformed request, is refused
    with an error. Throttling and network failures are not represented. *)

Module Dynamo.
Import JS.

(** The typed values of the service. On the wire, and in the arguments of
    the client's callbacks, each is an object with its type tag as only
    property: [{S: "abc"}], [{N: "12"}]. *)
Inductive AttributeValue : Type :=
| AV_S (s : string)
| AV_N (n : string)
| AV_B (b : string)
| AV_BOOL (b : bool)
| AV_NULL
| AV_SS (l : list string)
| AV_NS (l : list string)
| AV_BS (l : list string)
| AV_L (l : list AttributeValue)
| AV_M (m : list (string * AttributeValue)).

Definition Item : Type := list (string * AttributeValue).

Fixpoint encode (a : AttributeValue) : value :=
  match a with
  | AV_S s => Obj [("S", Str s)]
  | AV_N n => Obj [("N", Str n)]
  | AV_B b => Obj [("B", Str b)]
  | AV_BOOL b => Obj [("BOOL", Bool b)]
  | AV_NULL => Obj [("NULL", Bool true)]
  | AV_SS l => Obj [("SS", Arr (map Str l))]
  | AV_NS l => Obj [("NS", Arr (map Str l))]
  | AV_BS l => Obj [("BS", Arr (map Str l))]
  | AV_L l => Obj [("L", Arr (map encode l))]
  | AV_M m => Obj [("M", Obj (map (λ kv, (kv.1, encode kv.2)) m))]
  end.

Definition encode_item (item : Item) : value :=
  Obj (map (λ kv, (kv.1, encode kv.2)) item).

Definition strings_of (v : value) : option (list string) :=
  match v with
  | Arr l => mapM (λ e, match e with Str s => Some s | _ => None end) l
  | _ => None
  end.

Fixpoint decode (v : value) : option AttributeValue :=
  match v with
  | Obj [(tag, payload)] =>
      if String.eqb tag "S" then match payload with Str s => Some (AV_S s) | _ => None end
      else if String.eqb tag "N" then match payload with Str n => Some (AV_N n) | _ => None end
      else if String.eqb tag "B" then match payload with Str b => Some (AV_B b) | _ => None end
      else if String.eqb tag "BOOL" then match payload with Bool b => Some (AV_BOOL b) | _ => None end
      else if String.eqb tag "NULL" then match payload with Bool true => Some AV_NULL | _ => None end
      else if String.eqb tag "SS" then AV_SS <$> strings_of payload
      else if String.eqb tag "NS" then AV_NS <$> strings_of payload
      else if String.eqb tag "BS" then AV_BS <$> strings_of payload
      else if String.eqb tag "L" then
        match payload with
        | Arr l =>
            AV_L <$> (fix list_of (l : list value) : option (list AttributeValue) :=
                        match l with
                        | [] => Some []
                        | e :: l' => a ← decode e; r ← list_of l'; Some (a :: r)
                        end) l
        | _ => None
        end
      else if String.eqb tag "M" then
        match payload with
        | Obj m =>
            AV_M <$> (fix map_of (m : list (string * value)) : option (list (string * AttributeValue)) :=
                        match m with
                        | [] => Some []
                        | (k, e) :: m' => a ← decode e; r ← map_of m'; Some ((k, a) :: r)
                        end) m
        | _ => None
        end
      else None
  | _ => None
  end.

Definition decode_item (v : value) : option Item :=
  match v with
  | Obj props => mapM (λ kv, (λ a, (kv.1, a)) <$> decode kv.2) props
  | _ => None
  end.

(** A table holds items under their hash key, the string attribute [id]:
    the key schema the store creates its table with. *)
Abbreviation Table := (gmap string Item).

(** The service: its tables by name, and the requests it has received. *)
Record world : Type := World {
  tables : gmap string Table;
  log : list (string * value)
}.

Inductive reply : Type :=
| Failed (err : exn)
| Replied (data : value).

Definition ValidationException : exn := ServiceError "ValidationException".
Definition ResourceNotFoundException : exn := ServiceError "ResourceNotFoundException".
Definition ResourceInUseException : exn := ServiceError "ResourceInUseException".

Definition param (params : value) (k : string) : value :=
  match params with
  | Obj props => default Undefined (assoc k props)
  | _ => Undefined
  end.

Definition table_name (params : value) : throws string :=
  match param params "TableName" with
  | Str name => Return name
  | _ => Throw ValidationException
  end.

Definition the_table (ts : gmap string Table) (name : string) : throws Table :=
  match ts !! name with
  | Some t => Return t
  | None => Throw ResourceNotFoundException
  end.

(** A key is the hash key attribute and nothing else. *)
Definition key_of (key : value) : throws string :=
  match decode_item key with
  | Some [(name, AV_S k)] => if String.eqb name "id" then Return k else Throw ValidationException
  | _ => Throw ValidationException
  end.

(** A request is logged and served; a refused request changes no table. *)
Definition serve (operation : string) (params : value)
    (handler : gmap string Table → throws (value * gmap string Table))
    (w : world) : reply * world :=
  let log' := (log w ++ [(operation, params)])%list in
  match handler (tables w) with
  | Return (data, ts) => (Replied data, World ts log')
  | Throw err => (Failed err, World (tables w) log')
  end.

(** There is one copy of each table, so every read is consistent. *)
Definition getItem (params : value) : world → reply * world :=
  serve "getItem" params (λ ts,
    name ← table_name params;
    k ← key_of (param params "Key");
    t ← the_table ts name;
    Return (match t !! k with
            | Some item => Obj [("Item", encode_item item)]
            | None => Obj []
            end, ts)).

Definition putItem (params : value) : world → reply * world :=
  serve "putItem" params (λ ts,
    name ← table_name params;
    item ← match decode_item (param params "Item") with
           | Some item => Return item
           | None => Throw ValidationException
           end;
    k ← match assoc "id" item with
        | Some (AV_S k) => Return k
        | _ => Throw ValidationException
        end;
    t ← the_table ts name;
    Return (Obj [], <[name := <[k := item]> t]> ts)).

(** Deleting an item that is not there succeeds. *)
Definition deleteItem (params : value) : world → reply * world :=
  serve "deleteItem" params (λ ts,
    name ← table_name params;
    k ← key_of (param params "Key");
    t ← the_table ts name;
    Return (Obj [], <[name := delete k t]> ts)).

(** The words of an update expression: runs of characters between
    blanks, with the equals sign a word of its own. *)
Fixpoint words (cur : string) (s : string) : list string :=
  let flush := if String.eqb cur "" then [] else [String.rev cur] in
  match s with
  | EmptyString => flush
  | String c s' =>
      if Ascii.eqb c " " then (flush ++ words "" s')%list
      else if Ascii.eqb c "=" then (flush ++ "=" :: words "" s')%list
      else words (String c cur) s'
  end.

(** The update expressions the model understands: one [SET] of one
    attribute to one value, [SET path = :value]. Everything else is
    refused. *)
Definition set_action (expression : value) : throws (string * string) :=
  match expression with
  | Str e =>
      match words "" e with
      | [keyword; path; eq; operand] =>
          if String.eqb keyword "SET" && String.eqb eq "="
          then Return (path, operand)
          else Throw ValidationException
      | _ => Throw ValidationException
      end
  | _ => Throw ValidationException
  end.

Definition attribute_name (names : value) (path : string) : throws string :=
  match path with
  | String "#" _ =>
      match param names path with
      | Str a => Return a
      | _ => Throw ValidationException
      end
  | _ => Return path
  end.

Definition attribute_value (values : value) (operand : string) : throws AttributeValue :=
  match operand with
  | String ":" _ =>
      match decode (param values operand) with
      | Some a => Return a
      | None => Throw ValidationException
      end
  | _ => Throw ValidationException
  end.

(** An update of a key that has no item creates the item, with the key
    as its only other attribute. The key attribute itself cannot be set. *)
Definition updateItem (params : value) : world → reply * world :=
  serve "updateItem" params (λ ts,
    name ← table_name params;
    k ← key_of (param params "Key");
    action ← set_action (param params "UpdateExpression");
    attr ← attribute_name (param params "ExpressionAttributeNames") action.1;
    a ← attribute_value (param params "ExpressionAttributeValues") action.2;
    if String.eqb attr "id" then Throw ValidationException else
    t ← the_table ts name;
    let item := default [("id", AV_S k)] (t !! k) in
    Return (Obj [], <[name := <[k := assign attr a item]> t]> ts)).

Definition describeTable (params : value) : world → reply * world :=
  serve "describeTable" params (λ ts,
    name ← table_name params;
    _ ← the_table ts name;
    Return (Obj [("Table", Obj [("TableName", Str name)])], ts)).

(** The one key schema of the model: the hash key [id], a string. *)
Definition id_hash_key (params : value) : bool :=
  match param params "AttributeDefinitions", param params "KeySchema" with
  | Arr [Obj [(n1, Str a1); (t1, Str ty)]], Arr [Obj [(n2, Str a2); (k2, Str kt)]] =>
      String.eqb n1 "AttributeName" && String.eqb a1 "id"
      && String.eqb t1 "AttributeType" && String.eqb ty "S"
      && String.eqb n2 "AttributeName" && String.eqb a2 "id"
      && String.eqb k2 "KeyType" && String.eqb kt "HASH"
  | _, _ => false
  end.

Definition createTable (params : value) : world → reply * world :=
  serve "createTable" params (λ ts,
    name ← table_name params;
    if negb (id_hash_key params) then Throw ValidationException else
    match ts !! name with
    | Some _ => Throw ResourceInUseException
    | None => Return (Obj [("TableDescription", Obj [("TableName", Str name)])], <[name := ∅]> ts)
    end).

End Dynamo.

(** ** The session store *)

Module DynamoDBStore.
Import JS Dynamo.

(** One day in milliseconds. *)
Definition oneDayInMilliseconds : Z := 86400000.

(** The options the store reads; an absent option is [None]. The client
    the options may carry, or the region and credentials to build one
    from, is the service of [Dynamo]. *)
Record options : Type := Options {
  opt_prefix : option string;
  opt_table : option string
}.

Record t : Type := Store {
  prefix : string;
  table : string
}.

(** How a call ends: an exception escapes it, or the completion callback
    [fn] is invoked with an error (or [null]) and a result. When no
    callback was passed ([destroy] accepts that), the completion is what
    is dropped. *)
Inductive completion : Type :=
| Threw (e : exn)
| Called (err : option exn) (data : value).

(** The client invokes [fn(err, data)]. *)
Definition completed (r : reply) : completion :=
  match r with
  | Failed err => Called (Some err) Null
  | Replied data => Called None data
  end.

(** [DynamoDBStore(options)]: the configuration, and the check that the
    sessions table exists, creating it otherwise. The outcome of the
    creation is only logged to the console. The reap interval is 0 and
    starts no timer. *)
Definition new (o : options) (w : world) : t * world :=
  let self := {|
    prefix := match opt_prefix o with None => "sess:" | Some p => p end;
    table := match opt_table o with
             | Some name => if ToBoolean (Str name) then name else "sessions"
             | None => "sessions"
             end |} in
  let '(r, w1) := describeTable (Obj [("TableName", Str (table self))]) w in
  match r with
  | Failed error =>
      let '(_, w2) := createTable (Obj [
        ("TableName", Str (table self));
        ("AttributeDefinitions", Arr [Obj [("AttributeName", Str "id"); ("AttributeType", Str "S")]]);
        ("KeySchema", Arr [Obj [("AttributeName", Str "id"); ("KeyType", Str "HASH")]]);
        ("ProvisionedThroughput", Obj [("ReadCapacityUnits", Num 5); ("WriteCapacityUnits", Num 5)])]) w1 in
      (self, w2)
  | Replied info => (self, w1)
  end.

(** [destroy(sid, fn)] *)
Definition destroy_params (self : t) (sid : string) : value :=
  Obj [("TableName", Str (table self));
       ("Key", Obj [("id", Obj [("S", Str sid)])])].

Definition destroy (self : t) (sid : string) (w : world) : completion * world :=
  let '(r, w') := deleteItem (destroy_params self sid) w in
  (completed r, w').

Section codec.
Context `{JSON.Codec}.

(** What the [try] block of [get]'s callback decides before it calls
    back: to hand a payload to [fn], or to destroy the record and hand
    [null]. *)
Inductive verdict : Type :=
| Deliver (payload : value)
| Purge.

(** The [try] block of the callback [get] passes to [getItem], on the
    [result] of a read that did not fail. [now] is the clock value [get]
    read before the request. *)
Definition get_try (now : Z) (result : value) : throws verdict :=
  Item ← Get result "Item";
  if negb (ToBoolean Item) then Return (Deliver Null)
  else
    expires ← Get Item "expires";
    expired ← (if ToBoolean expires then ge now expires else Return false);
    if (expired : bool) then Return Purge
    else
      sess_attr ← Get Item "sess";
      let sess := if ToBoolean sess_attr then sess_attr else Obj [("S", Null)] in
      S ← Get sess "S";
      if negb (ToBoolean S) then Return Purge
      else
        text ← toString S;
        sess ← JSON.parse text;
        Return (Deliver sess).

Definition get_params (self : t) (sid : string) : value :=
  let psid := prefix self +:+ sid in
  Obj [("TableName", Str (table self));
       ("Key", Obj [("id", Obj [("S", Str psid)])]);
       ("ConsistentRead", Bool true)].

(** [get(sid, fn)] *)
Definition get (self : t) (sid : string) (now : Z) (w : world) : completion * world :=
  let psid := prefix self +:+ sid in
  let '(r, w1) := getItem (get_params self sid) w in
  match r with
  | Failed err => (Called (Some err) Undefined, w1)
  | Replied result =>
      match get_try now result with
      | Return (Deliver sess) => (Called None sess, w1)
      | Return Purge =>
          let '(_, w2) := destroy self psid w1 in
          (Called None Null, w2)
      | Throw err => (Called (Some err) Undefined, w1)
      end
  end.

(** The request [set] builds, or the exception that escapes it before
    there is a request. [now] is the clock value the call reads;
    [typeof maxAge === 'number'] holds of the numbers and of nothing
    else. *)
Definition set_params (self : t) (sid : string) (sess : value) (now : Z) : throws value :=
  let psid := prefix self +:+ sid in
  cookie ← Get sess "cookie";
  maxAge ← Get cookie "maxAge";
  let expires := match maxAge with
                 | Num maxAge => now + maxAge
                 | _ => now + oneDayInMilliseconds
                 end in
  let sess := JSON.stringified sess in
  Return (Obj [
    ("TableName", Str (table self));
    ("Item", Obj [
       ("id", Obj [("S", Str psid)]);
       ("expires", Obj [("N", JSON.stringified (Num expires))]);
       ("type", Obj [("S", Str "connect-session")]);
       ("sess", Obj [("S", sess)])])]).

(** [set(sid, sess, fn)] *)
Definition set (self : t) (sid : string) (sess : value) (now : Z) (w : world) : completion * world :=
  match set_params self sid sess now with
  | Throw e => (Threw e, w)
  | Return params =>
      let '(r, w') := putItem params w in
      (completed r, w')
  end.

(** The request [touch] builds, or the exception that escapes it. *)
Definition touch_params (self : t) (sid : string) (sess : value) (now : Z) : throws value :=
  let psid := prefix self +:+ sid in
  cookie ← Get sess "cookie";
  maxAge ← Get cookie "maxAge";
  let expires := match maxAge with
                 | Num maxAge => now + maxAge
                 | _ => now + oneDayInMilliseconds
                 end in
  Return (Obj [
    ("TableName", Str (table self));
    ("Key", Obj [("id", Obj [("S", Str psid)])]);
    ("UpdateExpression", Str "SET #attrName =:attrValue");
    ("ExpressionAttributeNames", Obj [("#attrName", Str "expires")]);
    ("ExpressionAttributeValues", Obj [(":attrValue", Obj [("N", Str (Number_toString expires))])])]).

(** [touch(sid, sess, fn)] *)
Definition touch (self : t) (sid : string) (sess : value) (now : Z) (w : world) : completion * world :=
  match touch_params self sid sess now with
  | Throw e => (Threw e, w)
  | Return params =>
      let '(r, w') := updateItem params w in
      (completed r, w')
  end.

End codec.

End DynamoDBStore.

(** ** The private sweep helper

    [destroy(data, fn)], the function the file keeps beside the methods
    for [reap] to call on the result of a scan. ([reap] itself has an
    empty body: it sends nothing and never calls [fn].) *)

Module Private.
Import JS Dynamo DynamoDBStore.

(** What a scan of the service hands to its callback: a count, and the
    items. *)
Record scan_output : Type := ScanOutput {
  Count : Z;
  Items : list Item
}.

(** [s.substring(start, end)] for indices that are not negative: both
    are capped at the length, and the smaller one is where it starts. *)
Definition substring (s : string) (start finish : nat) : string :=
  let a := Nat.min start (String.length s) in
  let b := Nat.min finish (String.length s) in
  String.substring (Nat.min a b) (Nat.max a b - Nat.min a b) s.

(** [data.Items[index]]: [undefined] past the end. *)
Definition item_at (data : scan_output) (index : Z) : value :=
  if (index <? 0)%Z then Undefined
  else match Items data !! Z.to_nat index with
       | Some item => encode_item item
       | None => Undefined
       end.

(** The two statements that compute [sid]:
    [data.Items[index].id.S], then the part of it after as many
    characters as the prefix has. *)
Definition listed_sid (self : t) (data : scan_output) (index : Z) : throws string :=
  id ← Get (item_at data index) "id";
  sid ← Get id "S";
  match sid with
  | Str s => Return (substring s (String.length (prefix self)) (String.length s))
  | Undefined => Throw (TypeError "Cannot read properties of undefined (reading 'substring')")
  | Null => Throw (TypeError "Cannot read properties of null (reading 'substring')")
  | _ => Throw (TypeError "sid.substring is not a function")
  end.

(** [destroyDataAt(index)]. Each call is made from the callback of the
    delete before it; [fuel] counts the calls still allowed, and [None]
    is a run that needed more. An exception ends the run, and [fn] is
    not called. *)
Fixpoint destroyDataAt (self : t) (data : scan_output) (fuel : nat) (index : Z) (w : world)
    : option (completion * world) :=
  if (0 <? Count data)%Z && (index <? Count data)%Z then
    match listed_sid self data index with
    | Throw e => Some (Threw e, w)
    | Return sid =>
        let '(_, w1) := DynamoDBStore.destroy self sid w in
        match fuel with
        | O => None
        | S fuel' => destroyDataAt self data fuel' (index + 1) w1
        end
    end
  else Some (Called None Undefined, w).

(** [destroy(data, fn)]: the index runs from 0 up to the count, which
    is as many calls as the count and one more. *)
Definition destroy (self : t) (data : scan_output) (w : world) : option (completion * world) :=
  destroyDataAt self data (Z.to_nat (Count data)) 0 w.

End Private.

(** * Properties of the store *)

Import JS Dynamo DynamoDBStore.
Local Open Scope list_scope.

(** ** Vocabulary *)

(** The text of the [sess] attribute as [get] sees it: a string
    attribute that is not empty. *)
Definition stored_text (item : Item) : option string :=
  match assoc "sess" item with
  | Some (AV_S text) => if String.eqb text "" then None else Some text
  | _ => None
  end.

(** The world after some requests. *)
Definition logged (w : world) (requests : list (string * value)) (ts : gmap string Table) : world :=
  World ts (log w ++ requests).

(** A raw lookup in the service, past the store. *)
Definition raw_lookup (w : world) (name key : string) : option Item :=
  tables w !! name ≫= λ tbl, tbl !! key.

(** The age a payload declares: [sess.cookie.maxAge] when that is a
    number. *)
Definition numeric_maxAge (sess : value) : option Z :=
  match Get sess "cookie" ≫= λ cookie, Get cookie "maxAge" with
  | Return (Num maxAge) => Some maxAge
  | _ => None
  end.

(** The expiry rule in the words of the specification: now plus the
    declared age, and now plus one day, 86400000 milliseconds, without
    one. *)
Definition ttl_rule (now : Z) (sess : value) : Z :=
  match numeric_maxAge sess with
  | Some m => now + m
  | None => now + 86400000
  end.

(** Reading [sess.cookie] throws, or gives [undefined] or [null]. *)
Definition cookie_missing (sess : value) : bool :=
  match Get sess "cookie" with
  | Return Undefined | Return Null | Throw _ => true
  | Return _ => false
  end.

(** The record [set] writes. *)
Definition session_item (psid : string) (expires : Z) (text : string) : Item :=
  [("id", AV_S psid);
   ("expires", AV_N (Number_toString expires));
   ("type", AV_S "connect-session");
   ("sess", AV_S text)].

Definition put_request (self : t) (item : Item) : value :=
  Obj [("TableName", Str (table self)); ("Item", encode_item item)].

(** The update [touch] asks for. *)
Definition update_request (self : t) (psid : string) (expires : Z) : value :=
  Obj [("TableName", Str (table self));
       ("Key", encode_item [("id", AV_S psid)]);
       ("UpdateExpression", Str "SET #attrName =:attrValue");
       ("ExpressionAttributeNames", Obj [("#attrName", Str "expires")]);
       ("ExpressionAttributeValues", Obj [(":attrValue", encode (AV_N (Number_toString expires)))])].

(** What [touch] leaves under the key: the item that was there, or the
    bare key, with [expires] set. *)
Definition touched (psid : string) (expires : Z) (before : option Item) : Item :=
  assign "expires" (AV_N (Number_toString expires)) (default [("id", AV_S psid)] before).

(** The record of a session as [get] finds it: whether the table is
    there, and the item under the prefixed id. *)
Definition record_view (self : t) (sid : string) (w : world) : option (option Item) :=
  (λ tbl : Table, tbl !! (prefix self +:+ sid)) <$> tables w !! table self.

(** Between two worlds, no table changed but the one named, and in it no
    record but the one under the key. *)
Definition only_key_changed (w w' : world) (name key : string) : Prop :=
  tables w' = tables w
  ∨ ∃ tbl tbl' : Table,
      tables w !! name = Some tbl
      ∧ tables w' = <[name := tbl']> (tables w)
      ∧ ∀ other, other ≠ key → tbl' !! other = tbl !! other.

(** The [id] of an item when it is a string. *)
Definition string_id (item : Item) : option string :=
  match assoc "id" item with
  | Some (AV_S s) => Some s
  | _ => None
  end.

(** The keys the private helper asks to delete for the items of a scan:
    each string id without its first characters, as many as the prefix
    has. *)
Definition stripped (self : t) (items : list Item) : list string :=
  omap (λ item,
          (λ s, Private.substring s (String.length (prefix self)) (String.length s))
            <$> string_id item) items.

(** The world after [destroy] of each key in turn. *)
Definition destroyed_all (self : t) (keys : list string) (w : world) : world :=
  foldl (λ w key, (destroy self key w).2) w keys.

Definition delete_requests (self : t) (keys : list string) : list (string * value) :=
  map (λ key, ("deleteItem", destroy_params self key)) keys.

(** ** A run of the store *)

(** A store with the default options over a service without tables,
    and two payloads: one that declares an age of five seconds, one that
    declares none. The codec is [JSONText.codec]. *)
Module Run.

Definition sessions : t * world := new (Options None None) (World ∅ []).
Definition store : t := sessions.1.

Definition alice : value :=
  Obj [("cookie", Obj [("maxAge", Num 5000)]); ("user", Str "alice")].
Definition bob : value :=
  Obj [("cookie", Obj [("path", Str "/")]); ("user", Str "bob")].

Definition text_of (sess : value) : string := default "" (JSONText.serialize sess).

(** [set("abc123", alice)] at time 1000. *)
Definition written : completion * world := set store "abc123" alice 1000 sessions.2.
(** [set("abc123", bob)] at time 1000. *)
Definition written_bob : completion * world := set store "abc123" bob 1000 sessions.2.

End Run.

Module Witness.
Import Run.

(** The table after [set("abc123", alice)], and its one record. *)
Definition alice_item : Item := session_item "sess:abc123" 6000 (text_of alice).
Definition alice_table : Table := {[ "sess:abc123" := alice_item ]}.

(** [touch("ghost", bob)] on a session that was never set leaves a
    record with a key and an expiry and no payload. *)
Definition ghost : completion * world := touch store "ghost" bob 1000 sessions.2.
Definition ghost_item : Item := [("id", AV_S "sess:ghost"); ("expires", AV_N "86401000")].
Definition ghost_table : Table := {[ "sess:ghost" := ghost_item ]}.

(** A record whose payload is not a JSON text. *)
Definition broken_item : Item := [("id", AV_S "sess:broken"); ("sess", AV_S "{oops")].
Definition broken : world := World {[ "sessions" := {[ "sess:broken" := broken_item ]} ]} [].

End Witness.

(** Scan outputs for the private helper: one that lists the two items it
    holds and one that counts three; and a record whose payload is a
    number. *)
Module Scans.

Definition items : list Item := [[("id", AV_S "sess:abc123")]; [("id", AV_S "sess:xyz")]].
Definition listed : Private.scan_output := Private.ScanOutput 2 items.
Definition miscounted : Private.scan_output := Private.ScanOutput 3 items.

Definition odd_item : Item := [("id", AV_S "sess:odd"); ("sess", AV_N "5")].
Definition odd_table : Table := {[ "sess:odd" := odd_item ]}.
Definition odd : world := World {[ "sessions" := odd_table ]} [].

(** A payload that declares the age [Run.alice] declares and differs in
    the rest. *)
Definition mallory : value :=
  Obj [("user", Str "mallory"); ("cookie", Obj [("maxAge", Num 5000); ("secure", Bool true)])].

End Scans.

(** ** What a read of an item shows *)

Lemma assoc_encoded (k : string) (item : Item) :
  assoc k (map (λ kv, (kv.1, encode kv.2)) item) = encode <$> assoc k item.
Proof.
  induction item as [|[k' a] item IH]; simpl; [reflexivity|].
  destruct (String.eqb k' k); [reflexivity | exact IH].
Qed.

Lemma Get_encode_item (k : string) (item : Item) :
  Get (encode_item item) k = Return (default Undefined (encode <$> assoc k item)).
Proof. unfold encode_item; simpl. by rewrite assoc_encoded. Qed.

(** An attribute value reaches the callback as an object: it is truthy,
    and as an operand of [>=] it is [NaN]. *)
Lemma encode_truthy (a : AttributeValue) : ToBoolean (encode a) = true.
Proof. by destruct a. Qed.

Lemma ge_encode (now : Z) (a : AttributeValue) : ge now (encode a) = Return false.
Proof. by destruct a. Qed.

Lemma Get_encode_S (a : AttributeValue) :
  Get (encode a) "S" = Return (match a with AV_S s => Str s | _ => Undefined end).
Proof. by destruct a. Qed.

Lemma bind_Return {A B : Type} (a : A) (k : A → throws B) : Return a ≫= k = k a.
Proof. reflexivity. Qed.

Section store.
Context `{codec : JSON.Codec}.

(** On an item of the service the expiry test of [get] is never true:
    whatever [expires] holds, and whatever the clock says, the item is
    purged exactly when it has no text, and its text is parsed
    otherwise. *)
Lemma get_try_item (now : Z) (item : Item) :
  get_try now (Obj [("Item", encode_item item)]) =
  match stored_text item with
  | Some text => sess ← JSON.parse text; Return (Deliver sess)
  | None => Return Purge
  end.
Proof.
  unfold get_try, stored_text.
  change (Get (Obj [("Item", encode_item item)]) "Item") with (Return (encode_item item)).
  rewrite bind_Return. change (ToBoolean (encode_item item)) with true. cbn [negb].
  rewrite !Get_encode_item, bind_Return.
  assert (Hfresh : (if ToBoolean (default Undefined (encode <$> assoc "expires" item))
                    then ge now (default Undefined (encode <$> assoc "expires" item))
                    else Return false) = Return false).
  { destruct (assoc "expires" item) as [e|]; simpl; [|reflexivity].
    by rewrite encode_truthy, ge_encode. }
  rewrite Hfresh, !bind_Return.
  destruct (assoc "sess" item) as [a|]; simpl; [|reflexivity].
  rewrite encode_truthy, Get_encode_S, bind_Return.
  destruct a; try reflexivity. simpl.
  destruct (String.eqb s ""); reflexivity.
Qed.

Lemma get_try_absent (now : Z) : get_try now (Obj []) = Return (Deliver Null).
Proof. reflexivity. Qed.

(** *** The requests, served *)

Lemma destroy_served (self : t) (key : string) (w : world) (tbl : Table) :
  tables w !! table self = Some tbl →
  destroy self key w =
  (Called None (Obj []),
   logged w [("deleteItem", destroy_params self key)] (<[table self := delete key tbl]> (tables w))).
Proof.
  intros Htbl. unfold destroy, deleteItem, serve, logged, the_table. simpl.
  rewrite Htbl. reflexivity.
Qed.

Lemma destroy_refused (self : t) (key : string) (w : world) :
  tables w !! table self = None →
  destroy self key w =
  (Called (Some ResourceNotFoundException) Null,
   logged w [("deleteItem", destroy_params self key)] (tables w)).
Proof.
  intros Htbl. unfold destroy, deleteItem, serve, logged, the_table. simpl.
  rewrite Htbl. reflexivity.
Qed.

Lemma getItem_served (self : t) (sid : string) (w : world) (tbl : Table) :
  tables w !! table self = Some tbl →
  getItem (get_params self sid) w =
  (Replied (match tbl !! (prefix self +:+ sid) with
            | Some item => Obj [("Item", encode_item item)]
            | None => Obj []
            end),
   logged w [("getItem", get_params self sid)] (tables w)).
Proof.
  intros Htbl. unfold getItem, serve, logged, the_table. simpl.
  rewrite Htbl. reflexivity.
Qed.

(** [get] on a table that exists: the three ways it ends. *)
Lemma get_served (self : t) (sid : string) (now : Z) (w : world) (tbl : Table) :
  tables w !! table self = Some tbl →
  get self sid now w =
  let psid := prefix self +:+ sid in
  let read := ("getItem", get_params self sid) in
  match tbl !! psid with
  | None => (Called None Null, logged w [read] (tables w))
  | Some item =>
      match stored_text item with
      | Some text =>
          match JSON.parse text with
          | Return sess => (Called None sess, logged w [read] (tables w))
          | Throw err => (Called (Some err) Undefined, logged w [read] (tables w))
          end
      | None =>
          (Called None Null,
           logged w [read; ("deleteItem", destroy_params self psid)]
             (<[table self := delete psid tbl]> (tables w)))
      end
  end.
Proof.
  intros Htbl. unfold get. rewrite (getItem_served _ _ _ _ Htbl).
  destruct (tbl !! (prefix self +:+ sid)) as [item|]; [|reflexivity].
  rewrite get_try_item. destruct (stored_text item) as [text|].
  - destruct (JSON.parse text); reflexivity.
  - cbn [mbind throws_bind]. rewrite (destroy_served self _ _ tbl) by exact Htbl.
    unfold logged; simpl. by rewrite <- app_assoc.
Qed.

Lemma get_refused (self : t) (sid : string) (now : Z) (w : world) :
  tables w !! table self = None →
  get self sid now w =
  (Called (Some ResourceNotFoundException) Undefined,
   logged w [("getItem", get_params self sid)] (tables w)).
Proof.
  intros Htbl. unfold get, getItem, serve, logged, the_table. simpl.
  rewrite Htbl. reflexivity.
Qed.

End store.

(** ** Writing *)

Section writes.
Context `{codec : JSON.Codec}.

Lemma params_throw (self : t) (sid : string) (sess : value) (now : Z) :
  cookie_missing sess = true →
  ∃ msg, set_params self sid sess now = Throw (TypeError msg)
         ∧ touch_params self sid sess now = Throw (TypeError msg).
Proof.
  unfold cookie_missing, set_params, touch_params.
  destruct sess; simpl; try (by eauto).
  destruct (assoc "cookie" props) as [[]|]; simpl; (by eauto) || discriminate.
Qed.

Lemma params_return (self : t) (sid : string) (sess : value) (now : Z) :
  cookie_missing sess = false →
  ∃ text, JSON.stringify sess = Some text ∧ text ≠ ""
    ∧ set_params self sid sess now =
        Return (put_request self (session_item (prefix self +:+ sid) (ttl_rule now sess) text))
    ∧ touch_params self sid sess now =
        Return (update_request self (prefix self +:+ sid) (ttl_rule now sess)).
Proof.
  unfold cookie_missing. destruct sess as [| | | | | |props]; simpl; try discriminate.
  intros Hcookie.
  destruct (JSON.stringify_Obj props) as (text & Htext & Hne).
  exists text. split; [exact Htext|]. split; [exact Hne|].
  unfold set_params, touch_params, ttl_rule, numeric_maxAge, JSON.stringified. simpl.
  destruct (assoc "cookie" props) as [cookie|]; simpl in *; [|discriminate].
  destruct cookie as [| | | | | |cprops]; simpl in *; try discriminate;
    try (rewrite Htext, JSON.stringify_Num; split; reflexivity).
  destruct (assoc "maxAge" cprops) as [[]|]; simpl;
    rewrite Htext, JSON.stringify_Num; split; reflexivity.
Qed.

Lemma putItem_served (self : t) (psid : string) (expires : Z) (text : string) (w : world) (tbl : Table) :
  tables w !! table self = Some tbl →
  let item := session_item psid expires text in
  putItem (put_request self item) w =
  (Replied (Obj []),
   logged w [("putItem", put_request self item)] (<[table self := <[psid := item]> tbl]> (tables w))).
Proof.
  intros Htbl. unfold putItem, serve, logged, the_table. simpl.
  rewrite Htbl. reflexivity.
Qed.

Lemma putItem_refused (self : t) (psid : string) (expires : Z) (text : string) (w : world) :
  tables w !! table self = None →
  let item := session_item psid expires text in
  putItem (put_request self item) w =
  (Failed ResourceNotFoundException, logged w [("putItem", put_request self item)] (tables w)).
Proof.
  intros Htbl. unfold putItem, serve, logged, the_table. simpl.
  rewrite Htbl. reflexivity.
Qed.

Lemma updateItem_served (self : t) (psid : string) (expires : Z) (w : world) (tbl : Table) :
  tables w !! table self = Some tbl →
  updateItem (update_request self psid expires) w =
  (Replied (Obj []),
   logged w [("updateItem", update_request self psid expires)]
     (<[table self := <[psid := touched psid expires (tbl !! psid)]> tbl]> (tables w))).
Proof.
  intros Htbl. unfold updateItem, serve, logged, the_table. simpl.
  rewrite Htbl. reflexivity.
Qed.

Lemma updateItem_refused (self : t) (psid : string) (expires : Z) (w : world) :
  tables w !! table self = None →
  updateItem (update_request self psid expires) w =
  (Failed ResourceNotFoundException,
   logged w [("updateItem", update_request self psid expires)] (tables w)).
Proof.
  intros Htbl. unfold updateItem, serve, logged, the_table. simpl.
  rewrite Htbl. reflexivity.
Qed.

Lemma set_served (self : t) (sid : string) (sess : value) (now : Z) (w : world) (tbl : Table) :
  cookie_missing sess = false →
  tables w !! table self = Some tbl →
  ∃ text, JSON.stringify sess = Some text ∧ text ≠ ""
    ∧ let item := session_item (prefix self +:+ sid) (ttl_rule now sess) text in
      set self sid sess now w =
      (Called None (Obj []),
       logged w [("putItem", put_request self item)]
         (<[table self := <[prefix self +:+ sid := item]> tbl]> (tables w))).
Proof.
  intros Hcookie Htbl.
  destruct (params_return self sid sess now Hcookie) as (text & Htext & Hne & Hset & _).
  exists text. split; [exact Htext|]. split; [exact Hne|].
  unfold set. rewrite Hset.
  rewrite (putItem_served self _ _ _ w tbl Htbl). reflexivity.
Qed.

Lemma touch_served (self : t) (sid : string) (sess : value) (now : Z) (w : world) (tbl : Table) :
  cookie_missing sess = false →
  tables w !! table self = Some tbl →
  let psid := prefix self +:+ sid in
  touch self sid sess now w =
  (Called None (Obj []),
   logged w [("updateItem", update_request self psid (ttl_rule now sess))]
     (<[table self := <[psid := touched psid (ttl_rule now sess) (tbl !! psid)]> tbl]> (tables w))).
Proof.
  intros Hcookie Htbl.
  destruct (params_return self sid sess now Hcookie) as (text & _ & _ & _ & Htouch).
  unfold touch. rewrite Htouch.
  rewrite (updateItem_served self _ _ w tbl Htbl). reflexivity.
Qed.

(** A call that completed without error found a cookie in the payload
    and its table in the service. *)
Lemma set_succeeded (self : t) (sid : string) (sess : value) (now : Z) (w w1 : world) (data : value) :
  set self sid sess now w = (Called None data, w1) →
  cookie_missing sess = false ∧ ∃ tbl, tables w !! table self = Some tbl.
Proof.
  intros Hset. destruct (cookie_missing sess) eqn:Hcookie.
  - destruct (params_throw self sid sess now Hcookie) as (msg & Hthrow & _).
    unfold set in Hset. rewrite Hthrow in Hset. discriminate.
  - split; [reflexivity|].
    destruct (tables w !! table self) as [tbl|] eqn:Htbl; [by eauto|].
    destruct (params_return self sid sess now Hcookie) as (text & _ & _ & Hparams & _).
    unfold set in Hset. rewrite Hparams in Hset.
    rewrite (putItem_refused self _ _ _ w Htbl) in Hset. discriminate.
Qed.

Lemma touch_succeeded (self : t) (sid : string) (sess : value) (now : Z) (w w1 : world) (data : value) :
  touch self sid sess now w = (Called None data, w1) →
  cookie_missing sess = false ∧ ∃ tbl, tables w !! table self = Some tbl.
Proof.
  intros Htouch. destruct (cookie_missing sess) eqn:Hcookie.
  - destruct (params_throw self sid sess now Hcookie) as (msg & _ & Hthrow).
    unfold touch in Htouch. rewrite Hthrow in Htouch. discriminate.
  - split; [reflexivity|].
    destruct (tables w !! table self) as [tbl|] eqn:Htbl; [by eauto|].
    destruct (params_return self sid sess now Hcookie) as (text & _ & _ & _ & Hparams).
    unfold touch in Htouch. rewrite Hparams in Htouch.
    rewrite (updateItem_refused self _ _ w Htbl) in Htouch. discriminate.
Qed.

End writes.

Lemma stored_text_session_item (psid : string) (expires : Z) (text : string) :
  text ≠ "" → stored_text (session_item psid expires text) = Some text.
Proof.
  intros Hne. unfold stored_text. simpl.
  destruct (String.eqb_spec text ""); [contradiction | reflexivity].
Qed.

Lemma assoc_assign_eq {A : Type} (k : string) (a : A) (l : list (string * A)) :
  assoc k (assign k a l) = Some a.
Proof.
  induction l as [|[k' a'] l IH]; simpl.
  - by rewrite String.eqb_refl.
  - destruct (String.eqb k' k) eqn:E; simpl.
    + by rewrite String.eqb_refl.
    + by rewrite E.
Qed.

Lemma assoc_assign_ne {A : Type} (k k0 : string) (a : A) (l : list (string * A)) :
  k0 ≠ k → assoc k0 (assign k a l) = assoc k0 l.
Proof.
  intros Hne. induction l as [|[k' a'] l IH]; simpl.
  - destruct (String.eqb_spec k k0); [congruence | reflexivity].
  - destruct (String.eqb_spec k' k) as [->|]; simpl.
    + destruct (String.eqb_spec k k0); [congruence | reflexivity].
    + destruct (String.eqb k' k0); [reflexivity | exact IH].
Qed.

Lemma stored_text_touched (psid : string) (expires : Z) (item : Item) :
  stored_text (touched psid expires (Some item)) = stored_text item.
Proof.
  unfold stored_text, touched. simpl. by rewrite assoc_assign_ne.
Qed.

Lemma serve_log (operation : string) (params : value)
    (handler : gmap string Table → throws (value * gmap string Table)) (w : world) :
  log (serve operation params handler w).2 = log w ++ [(operation, params)].
Proof. unfold serve. by destruct (handler (tables w)) as [[]|]. Qed.

Lemma append_length (a b : string) :
  String.length (a +:+ b) = (String.length a + String.length b)%nat.
Proof. induction a as [|c a IH]; simpl; [reflexivity | by rewrite IH]. Qed.

Lemma prefixed_differs (pre sid : string) : pre ≠ "" → pre +:+ sid ≠ sid.
Proof.
  intros Hne Heq. apply (f_equal String.length) in Heq.
  rewrite append_length in Heq. destruct pre; [congruence | simpl in Heq; lia].
Qed.

(** ** What [get] does after a write or a delete *)

Section after.
Context `{codec : JSON.Codec}.

(** After a [set] that completed without error, a [get] of the same
    session id ends in the same way at every clock value: it hands over
    what [JSON.parse] makes of the text [set] stored, and changes no
    table. The record is never deleted because its time has passed. *)
Lemma get_after_set
    (self : t) (sid : string) (p : value) (now now' : Z) (w w1 : world) (data : value) :
  set self sid p now w = (Called None data, w1) →
  ∃ text, JSON.stringify p = Some text ∧
    get self sid now' w1 =
    (match JSON.parse text with
     | Return sess => Called None sess
     | Throw err => Called (Some err) Undefined
     end,
     logged w1 [("getItem", get_params self sid)] (tables w1)).
Proof.
  intros Hset.
  destruct (set_succeeded _ _ _ _ _ _ _ Hset) as (Hcookie & tbl & Htbl).
  destruct (set_served self sid p now w tbl Hcookie Htbl) as (text & Htext & Hne & Hset').
  cbn zeta in Hset'. rewrite Hset' in Hset. injection Hset as _ <-.
  exists text. split; [exact Htext|].
  erewrite get_served; [|unfold logged; simpl; apply lookup_insert_eq].
  cbn zeta. rewrite lookup_insert_eq, stored_text_session_item by exact Hne.
  by destruct (JSON.parse text).
Qed.

(** With a prefix that is not empty, [destroy(sid)] leaves the record of
    the session where it is, and a [get] ends after it as before it. *)
Lemma get_after_destroy
    (self : t) (sid : string) (now : Z) (w : world) (tbl : Table) :
  prefix self ≠ "" →
  tables w !! table self = Some tbl →
  raw_lookup (destroy self sid w).2 (table self) (prefix self +:+ sid)
  = tbl !! (prefix self +:+ sid)
  ∧ (get self sid now (destroy self sid w).2).1 = (get self sid now w).1.
Proof.
  intros Hprefix Htbl.
  pose proof (prefixed_differs (prefix self) sid Hprefix) as Hne.
  rewrite (destroy_served self sid w tbl Htbl).
  assert (Hkept : delete sid tbl !! (prefix self +:+ sid) = tbl !! (prefix self +:+ sid))
    by (apply lookup_delete_ne; congruence).
  split.
  - unfold raw_lookup, logged. simpl. rewrite lookup_insert_eq. simpl. exact Hkept.
  - erewrite get_served; [|unfold logged; simpl; apply lookup_insert_eq].
    rewrite (get_served self sid now w tbl Htbl). cbn zeta. rewrite Hkept.
    destruct (tbl !! (prefix self +:+ sid)) as [item|]; [|reflexivity].
    destruct (stored_text item) as [text|]; [|reflexivity].
    by destruct (JSON.parse text).
Qed.

End after.

(** ** The claims *)

Section claims.
Context `{codec : JSON.Codec}.

(** C3: a payload without a numeric [cookie.maxAge] that survives
    serialisation, written by a [set] that completed without error, is
    what a [get] of the same session id hands to its callback, without
    error, when it is called less than one day (86400000 ms) after the
    write; the read changes no table. *)
Theorem get_after_set_returns_payload
    (self : t) (sid : string) (p : value) (now now' : Z) (w w1 : world) (data : value) :
  numeric_maxAge p = None →
  JSON.serializable p →
  set self sid p now w = (Called None data, w1) →
  now ≤ now' < now + oneDayInMilliseconds →
  get self sid now' w1 =
  (Called None p, logged w1 [("getItem", get_params self sid)] (tables w1)).
Proof.
  intros _ (text' & Htext' & Hparse) Hset _.
  destruct (set_succeeded _ _ _ _ _ _ _ Hset) as (Hcookie & tbl & Htbl).
  destruct (set_served self sid p now w tbl Hcookie Htbl) as (text & Htext & Hne & Hset').
  cbn zeta in Hset'. rewrite Hset' in Hset. injection Hset as _ <-.
  assert (text' = text) as -> by congruence.
  erewrite get_served; [|unfold logged; simpl; apply lookup_insert_eq].
  cbn zeta. rewrite lookup_insert_eq, stored_text_session_item, Hparse by exact Hne.
  reflexivity.
Qed.

(** C4: a [touch] that completes without error on a session that has a
    record sends one update, keyed by the prefixed id, whose expression
    sets the attribute named [expires] and no other; the record keeps
    every other attribute, [sess] and [type] among them. A [get] of the
    session therefore ends after the [touch] as it would have ended
    before it, and hands over the payload the record holds. *)
Theorem touch_sets_only_expires
    (self : t) (sid : string) (q : value) (now : Z) (w w1 : world) (data : value)
    (tbl : Table) (item : Item) :
  tables w !! table self = Some tbl →
  tbl !! (prefix self +:+ sid) = Some item →
  touch self sid q now w = (Called None data, w1) →
  let psid := prefix self +:+ sid in
  let expires := AV_N (Number_toString (ttl_rule now q)) in
  log w1 = log w ++ [("updateItem", Obj [
      ("TableName", Str (table self));
      ("Key", Obj [("id", Obj [("S", Str psid)])]);
      ("UpdateExpression", Str "SET #attrName =:attrValue");
      ("ExpressionAttributeNames", Obj [("#attrName", Str "expires")]);
      ("ExpressionAttributeValues", Obj [(":attrValue", encode expires)])])]
  ∧ (∃ item', raw_lookup w1 (table self) psid = Some item'
       ∧ assoc "expires" item' = Some expires
       ∧ assoc "sess" item' = assoc "sess" item
       ∧ assoc "type" item' = assoc "type" item
       ∧ ∀ a, a ≠ "expires" → assoc a item' = assoc a item)
  ∧ (∀ now', (get self sid now' w1).1 = (get self sid now' w).1)
  ∧ (∀ text p now', stored_text item = Some text → JSON.parse text = Return p →
       (get self sid now' w1).1 = Called None p).
Proof.
  intros Htbl Hitem Htouch psid expires. subst psid expires.
  destruct (touch_succeeded _ _ _ _ _ _ _ Htouch) as (Hcookie & _).
  rewrite (touch_served self sid q now w tbl Hcookie Htbl) in Htouch.
  cbn zeta in Htouch. injection Htouch as _ <-. rewrite Hitem.
  assert (Hget : ∀ now', (get self sid now' (logged w
      [("updateItem", update_request self (prefix self +:+ sid) (ttl_rule now q))]
      (<[table self := <[prefix self +:+ sid :=
           touched (prefix self +:+ sid) (ttl_rule now q) (Some item)]> tbl]> (tables w)))).1
    = (get self sid now' w).1).
  { intros now'. erewrite get_served; [|unfold logged; simpl; apply lookup_insert_eq].
    rewrite (get_served self sid now' w tbl Htbl). cbn zeta.
    rewrite lookup_insert_eq, Hitem, stored_text_touched.
    destruct (stored_text item) as [text|]; [|reflexivity].
    by destruct (JSON.parse text). }
  split; [reflexivity|]. split; [|split].
  - exists (touched (prefix self +:+ sid) (ttl_rule now q) (Some item)).
    unfold raw_lookup, logged, touched. simpl.
    rewrite lookup_insert_eq. simpl. rewrite lookup_insert_eq.
    rewrite assoc_assign_eq, !assoc_assign_ne by discriminate.
    repeat split. intros a Ha. by apply assoc_assign_ne.
  - exact Hget.
  - intros text p now' Htext Hparse. rewrite Hget.
    rewrite (get_served self sid now' w tbl Htbl). cbn zeta.
    by rewrite Hitem, Htext, Hparse.
Qed.

(** C5: when the record of a session has a [sess] string that is not
    empty and that [JSON.parse] rejects, [get] hands the error to its
    callback: no exception escapes the call, and the callback is not
    given a null payload as a success. No table changes. *)
Theorem get_malformed_payload_is_error
    (self : t) (sid : string) (now : Z) (w : world) (tbl : Table) (item : Item)
    (text : string) (err : exn) :
  tables w !! table self = Some tbl →
  tbl !! (prefix self +:+ sid) = Some item →
  assoc "sess" item = Some (AV_S text) →
  text ≠ "" →
  JSON.parse text = Throw err →
  get self sid now w =
  (Called (Some err) Undefined, logged w [("getItem", get_params self sid)] (tables w)).
Proof.
  intros Htbl Hitem Hsess Hne Hparse.
  rewrite (get_served self sid now w tbl Htbl). cbn zeta. rewrite Hitem.
  unfold stored_text. rewrite Hsess.
  destruct (String.eqb_spec text ""); [contradiction|].
  by rewrite Hparse.
Qed.


(** C7: when [get] finds an item whose [sess] attribute is missing or
    is the empty string, it asks the service to delete the record under
    the prefixed id and then calls back with no error and a null
    payload; the record is gone afterwards. *)
Theorem get_destroys_record_without_payload
    (self : t) (sid : string) (now : Z) (w : world) (tbl : Table) (item : Item) :
  tables w !! table self = Some tbl →
  tbl !! (prefix self +:+ sid) = Some item →
  assoc "sess" item = None ∨ assoc "sess" item = Some (AV_S "") →
  let psid := prefix self +:+ sid in
  get self sid now w =
  (Called None Null,
   logged w [("getItem", get_params self sid); ("deleteItem", destroy_params self psid)]
     (<[table self := delete psid tbl]> (tables w)))
  ∧ raw_lookup (get self sid now w).2 (table self) psid = None.
Proof.
  intros Htbl Hitem Hsess psid. subst psid.
  assert (Hget : get self sid now w =
    (Called None Null,
     logged w [("getItem", get_params self sid);
               ("deleteItem", destroy_params self (prefix self +:+ sid))]
       (<[table self := delete (prefix self +:+ sid) tbl]> (tables w)))).
  { rewrite (get_served self sid now w tbl Htbl). cbn zeta. rewrite Hitem.
    unfold stored_text. by destruct Hsess as [-> | ->]. }
  split; [exact Hget|].
  rewrite Hget. unfold raw_lookup, logged. simpl.
  rewrite lookup_insert_eq. simpl. apply lookup_delete_eq.
Qed.

Lemma get_log (self : t) (sid : string) (now : Z) (w : world) :
  ∃ rest, log (get self sid now w).2 = log w ++ ("getItem", get_params self sid) :: rest
    ∧ (rest = [] ∨ rest = [("deleteItem", destroy_params self (prefix self +:+ sid))]).
Proof.
  destruct (tables w !! table self) as [tbl|] eqn:Htbl.
  - rewrite (get_served self sid now w tbl Htbl). cbn zeta.
    destruct (tbl !! (prefix self +:+ sid)) as [item|]; [|by eauto].
    destruct (stored_text item) as [text|]; [|by eauto].
    destruct (JSON.parse text); by eauto.
  - rewrite (get_refused self sid now w Htbl). by eauto.
Qed.

Lemma set_log (self : t) (sid : string) (sess : value) (now : Z) (w : world) (params : value) :
  set_params self sid sess now = Return params →
  log (set self sid sess now w).2 = log w ++ [("putItem", params)].
Proof.
  intros Hparams. unfold set. rewrite Hparams.
  pose proof (serve_log "putItem" params _ w : log (putItem params w).2 = _) as Hlog.
  by destruct (putItem params w).
Qed.

Lemma touch_log (self : t) (sid : string) (sess : value) (now : Z) (w : world) (params : value) :
  touch_params self sid sess now = Return params →
  log (touch self sid sess now w).2 = log w ++ [("updateItem", params)].
Proof.
  intros Hparams. unfold touch. rewrite Hparams.
  pose proof (serve_log "updateItem" params _ w : log (updateItem params w).2 = _) as Hlog.
  by destruct (updateItem params w).
Qed.

(** C8: the prefix of a store is the option it was given, "sess:"
    without one. Every request of [get] (the read, and the delete that
    may follow it), the request of [set] and the request of [touch] names
    the record by the one key [id], the prefix followed by the session
    id. The record [set] writes has the attributes [id], [expires],
    [type] and [sess], and none that holds the prefix. A call that
    throws sends nothing. *)
Theorem requests_use_the_prefixed_id
    (self : t) (sid : string) (sess : value) (now : Z) (w : world) :
  let psid := prefix self +:+ sid in
  let key := Obj [("id", Obj [("S", Str psid)])] in
  (∀ name w0, prefix (new (Options None name) w0).1 = "sess:")
  ∧ (∀ p name w0, prefix (new (Options (Some p) name) w0).1 = p)
  ∧ (∃ rest,
       log (get self sid now w).2 =
       log w ++ ("getItem", Obj [("TableName", Str (table self)); ("Key", key);
                                 ("ConsistentRead", Bool true)]) :: rest
       ∧ (rest = [] ∨ rest = [("deleteItem", Obj [("TableName", Str (table self)); ("Key", key)])]))
  ∧ (if cookie_missing sess
     then log (set self sid sess now w).2 = log w
     else ∃ expires text,
       log (set self sid sess now w).2 =
       log w ++ [("putItem", Obj [
         ("TableName", Str (table self));
         ("Item", Obj [("id", Obj [("S", Str psid)]);
                       ("expires", Obj [("N", Str expires)]);
                       ("type", Obj [("S", Str "connect-session")]);
                       ("sess", Obj [("S", Str text)])])])])
  ∧ (if cookie_missing sess
     then log (touch self sid sess now w).2 = log w
     else ∃ expires,
       log (touch self sid sess now w).2 =
       log w ++ [("updateItem", Obj [
         ("TableName", Str (table self));
         ("Key", key);
         ("UpdateExpression", Str "SET #attrName =:attrValue");
         ("ExpressionAttributeNames", Obj [("#attrName", Str "expires")]);
         ("ExpressionAttributeValues", Obj [(":attrValue", Obj [("N", Str expires)])])])]).
Proof.
  intros psid key. subst psid key.
  split; [intros name w0; unfold new; simpl; by repeat case_match|].
  split; [intros p name w0; unfold new; simpl; by repeat case_match|].
  split; [apply get_log|].
  destruct (cookie_missing sess) eqn:Hcookie.
  - destruct (params_throw self sid sess now Hcookie) as (msg & Hset & Htouch).
    unfold set, touch. by rewrite Hset, Htouch.
  - destruct (params_return self sid sess now Hcookie) as (text & _ & _ & Hset & Htouch).
    split.
    + eexists _, text. by rewrite (set_log _ _ _ _ _ _ Hset).
    + eexists. by rewrite (touch_log _ _ _ _ _ _ Htouch).
Qed.



End claims.

(** ** The claims on the run *)

(** C1, on the code: the store with the default options,
    [set("abc123", {cookie: {maxAge: 5000}, user: "alice"})] at time 1000,
    then [get("abc123")] at time 7000, a second after the age has run
    out. The record holds [expires] = 6000, yet [get] hands the payload
    to its callback and the record stays: the [expires] it compares the
    clock with is the attribute object, not the number in it. *)
Theorem get_past_maxAge_still_returns_payload :
  let read := get Run.store "abc123" 7000 Run.written.2 in
  numeric_maxAge Run.alice = Some 5000
  ∧ Run.written.1 = Called None (Obj [])
  ∧ raw_lookup Run.written.2 "sessions" "sess:abc123"
    = Some (session_item "sess:abc123" 6000 (Run.text_of Run.alice))
  ∧ read.1 = Called None Run.alice
  ∧ log read.2 = log Run.written.2 ++ [("getItem", get_params Run.store "abc123")]
  ∧ raw_lookup read.2 "sessions" "sess:abc123"
    = Some (session_item "sess:abc123" 6000 (Run.text_of Run.alice)).
Proof. vm_compute. by repeat split. Qed.

(** C2, on the code: after [set("abc123", alice)], [destroy("abc123")]
    asks for the deletion of the key "abc123", which no record has; the
    record under "sess:abc123" stays, and the [get("abc123")] that follows
    hands the payload, not null, to its callback. *)
Theorem get_after_destroy_still_returns_payload :
  let destroyed := destroy Run.store "abc123" Run.written.2 in
  let read := get Run.store "abc123" 2000 destroyed.2 in
  Run.written.1 = Called None (Obj [])
  ∧ destroyed.1 = Called None (Obj [])
  ∧ log destroyed.2 = log Run.written.2 ++
      [("deleteItem", Obj [("TableName", Str "sessions");
                           ("Key", Obj [("id", Obj [("S", Str "abc123")])])])]
  ∧ raw_lookup destroyed.2 "sessions" "sess:abc123"
    = Some (session_item "sess:abc123" 6000 (Run.text_of Run.alice))
  ∧ read.1 = Called None Run.alice.
Proof. vm_compute. by repeat split. Qed.


(** On the run: [set("abc123", bob)] at 1000, then [get("abc123")] at 2000. *)
Lemma get_after_set_returns_payload_witness :
  numeric_maxAge Run.bob = None
  ∧ Run.written_bob.1 = Called None (Obj [])
  ∧ get Run.store "abc123" 2000 Run.written_bob.2 =
    (Called None Run.bob,
     logged Run.written_bob.2 [("getItem", get_params Run.store "abc123")]
       (tables Run.written_bob.2)).
Proof.
  split; [vm_compute; reflexivity|]. split; [vm_compute; reflexivity|].
  apply (get_after_set_returns_payload (codec := JSONText.codec)
           Run.store "abc123" Run.bob 1000 2000 Run.sessions.2 Run.written_bob.2 (Obj [])).
  - vm_compute; reflexivity.
  - exists (Run.text_of Run.bob). split; vm_compute; reflexivity.
  - vm_compute; reflexivity.
  - unfold oneDayInMilliseconds; lia.
Defined.

(** On the run: [set("abc123", alice)] at 1000, then [touch("abc123", bob)]
    at 9000, then [get("abc123")] at any time. *)
Lemma touch_sets_only_expires_witness :
  let touched := touch Run.store "abc123" Run.bob 9000 Run.written.2 in
  touched.1 = Called None (Obj [])
  ∧ raw_lookup Run.written.2 "sessions" "sess:abc123"
    = Some (session_item "sess:abc123" 6000 (Run.text_of Run.alice))
  ∧ raw_lookup touched.2 "sessions" "sess:abc123"
    = Some (session_item "sess:abc123" 86409000 (Run.text_of Run.alice))
  ∧ ∀ now', (get Run.store "abc123" now' touched.2).1 = Called None Run.alice.
Proof.
  cbv zeta. split; [vm_compute; reflexivity|]. split; [vm_compute; reflexivity|].
  split; [vm_compute; reflexivity|]. intros now'.
  refine (proj2 (proj2 (proj2 (touch_sets_only_expires (codec := JSONText.codec)
    Run.store "abc123" Run.bob 9000 Run.written.2
    (touch Run.store "abc123" Run.bob 9000 Run.written.2).2 (Obj [])
    Witness.alice_table Witness.alice_item _ _ _)))
    (Run.text_of Run.alice) Run.alice now' _ _); vm_compute; reflexivity.
Defined.

(** On a record whose payload text is cut short. *)
Lemma get_malformed_payload_is_error_witness :
  JSONText.deserialize "{oops" = Throw (SyntaxError "Unexpected token in JSON")
  ∧ get Run.store "broken" 1000 Witness.broken =
    (Called (Some (SyntaxError "Unexpected token in JSON")) Undefined,
     logged Witness.broken [("getItem", get_params Run.store "broken")] (tables Witness.broken)).
Proof.
  split; [vm_compute; reflexivity|].
  apply (get_malformed_payload_is_error (codec := JSONText.codec)
           Run.store "broken" 1000 Witness.broken
           {[ "sess:broken" := Witness.broken_item ]} Witness.broken_item "{oops");
    [vm_compute; reflexivity | vm_compute; reflexivity | vm_compute; reflexivity
    | discriminate | vm_compute; reflexivity].
Defined.


(** On the record a [touch] of a session that was never set leaves. *)
Lemma get_destroys_record_without_payload_witness :
  Witness.ghost.1 = Called None (Obj [])
  ∧ raw_lookup Witness.ghost.2 "sessions" "sess:ghost" = Some Witness.ghost_item
  ∧ (get Run.store "ghost" 2000 Witness.ghost.2).1 = Called None Null
  ∧ raw_lookup (get Run.store "ghost" 2000 Witness.ghost.2).2 "sessions" "sess:ghost" = None.
Proof.
  split; [vm_compute; reflexivity|]. split; [vm_compute; reflexivity|].
  destruct (get_destroys_record_without_payload (codec := JSONText.codec)
              Run.store "ghost" 2000 Witness.ghost.2 Witness.ghost_table Witness.ghost_item)
    as [Hget Hgone];
    [vm_compute; reflexivity | vm_compute; reflexivity | left; vm_compute; reflexivity |].
  split; [by rewrite Hget | exact Hgone].
Defined.


(** ** Further properties *)

Section further.
Context `{codec : JSON.Codec}.

(** X1: a [get] of a session that has no record calls back with no error
    and a null payload, after the one read; nothing is deleted. *)
Theorem get_absent_session_is_null
    (self : t) (sid : string) (now : Z) (w : world) (tbl : Table) :
  tables w !! table self = Some tbl →
  tbl !! (prefix self +:+ sid) = None →
  get self sid now w =
  (Called None Null, logged w [("getItem", get_params self sid)] (tables w)).
Proof.
  intros Htbl Hnone. rewrite (get_served self sid now w tbl Htbl). cbn zeta.
  by rewrite Hnone.
Qed.

(** X2: an error of the service reaches the completion callback as it
    is: [get] passes on the error of its read, [set] of its write,
    [touch] of its update and [destroy] of its delete, and none of them
    asks again. *)
Theorem service_errors_are_passed_on
    (self : t) (sid : string) (sess : value) (now : Z) (w : world) :
  tables w !! table self = None →
  cookie_missing sess = false →
  (get self sid now w).1 = Called (Some ResourceNotFoundException) Undefined
  ∧ (set self sid sess now w).1 = Called (Some ResourceNotFoundException) Null
  ∧ (touch self sid sess now w).1 = Called (Some ResourceNotFoundException) Null
  ∧ (destroy self sid w).1 = Called (Some ResourceNotFoundException) Null
  ∧ List.length (log (get self sid now w).2) = S (List.length (log w))
  ∧ List.length (log (set self sid sess now w).2) = S (List.length (log w))
  ∧ List.length (log (touch self sid sess now w).2) = S (List.length (log w))
  ∧ List.length (log (destroy self sid w).2) = S (List.length (log w)).
Proof.
  intros Htbl Hcookie.
  destruct (params_return self sid sess now Hcookie) as (text & _ & _ & Hset & Htouch).
  rewrite (get_refused self sid now w Htbl), (destroy_refused self sid w Htbl).
  unfold set, touch. rewrite Hset, Htouch.
  rewrite (putItem_refused self _ _ _ w Htbl), (updateItem_refused self _ _ w Htbl).
  unfold logged. simpl. rewrite !List.length_app. simpl.
  repeat split; lia.
Qed.

(** X3: a [set] that completes without error leaves, under the prefixed
    id, exactly the record it built: the four attributes [id],
    [expires], [type] and [sess], whatever record was there before. The
    other records of the table are as they were. *)
Theorem set_replaces_the_record
    (self : t) (sid : string) (sess : value) (now : Z) (w w1 : world) (data : value) :
  set self sid sess now w = (Called None data, w1) →
  ∃ text, JSON.stringify sess = Some text
    ∧ raw_lookup w1 (table self) (prefix self +:+ sid)
      = Some [("id", AV_S (prefix self +:+ sid));
              ("expires", AV_N (Number_toString (ttl_rule now sess)));
              ("type", AV_S "connect-session");
              ("sess", AV_S text)]
    ∧ ∀ key, key ≠ prefix self +:+ sid →
        raw_lookup w1 (table self) key = raw_lookup w (table self) key.
Proof.
  intros Hset.
  destruct (set_succeeded _ _ _ _ _ _ _ Hset) as (Hcookie & tbl & Htbl).
  destruct (set_served self sid sess now w tbl Hcookie Htbl) as (text & Htext & _ & Hset').
  cbn zeta in Hset'. rewrite Hset' in Hset. injection Hset as _ <-.
  exists text. split; [exact Htext|]. unfold raw_lookup, logged. simpl.
  rewrite lookup_insert_eq, Htbl. simpl. split; [by rewrite lookup_insert_eq|].
  intros key Hkey. by rewrite lookup_insert_ne.
Qed.

End further.


(** On the run: a session id nobody wrote. *)
Lemma get_absent_session_is_null_witness :
  tables Run.sessions.2 !! "sessions" = Some ∅
  ∧ get Run.store "nobody" 1000 Run.sessions.2 =
    (Called None Null,
     logged Run.sessions.2 [("getItem", get_params Run.store "nobody")] (tables Run.sessions.2)).
Proof.
  split; [vm_compute; reflexivity|].
  apply (get_absent_session_is_null (codec := JSONText.codec)
           Run.store "nobody" 1000 Run.sessions.2 ∅); vm_compute; reflexivity.
Defined.

(** On a service without tables. *)
Lemma service_errors_are_passed_on_witness :
  (get Run.store "abc123" 1000 (World ∅ [])).1
  = Called (Some ResourceNotFoundException) Undefined
  ∧ (set Run.store "abc123" Run.alice 1000 (World ∅ [])).1
    = Called (Some ResourceNotFoundException) Null.
Proof.
  destruct (service_errors_are_passed_on (codec := JSONText.codec)
              Run.store "abc123" Run.alice 1000 (World ∅ []))
    as (Hget & Hset & _); [vm_compute; reflexivity | vm_compute; reflexivity |].
  split; [exact Hget | exact Hset].
Defined.

(** On the run: [set("abc123", bob)] at 1000. *)
Lemma set_replaces_the_record_witness :
  ∃ text, JSON.stringify Run.bob = Some text
    ∧ raw_lookup Run.written_bob.2 "sessions" "sess:abc123"
      = Some [("id", AV_S "sess:abc123");
              ("expires", AV_N (Number_toString 86401000));
              ("type", AV_S "connect-session");
              ("sess", AV_S text)]
    ∧ ∀ key, key ≠ "sess:abc123" →
        raw_lookup Run.written_bob.2 "sessions" key = raw_lookup Run.sessions.2 "sessions" key.
Proof.
  apply (set_replaces_the_record (codec := JSONText.codec)
           Run.store "abc123" Run.bob 1000 Run.sessions.2 Run.written_bob.2 (Obj [])).
  vm_compute; reflexivity.
Defined.

(** ** What the operations leave alone *)

Section frame.
Context `{codec : JSON.Codec}.

Lemma only_key_changed_insert (w : world) (requests : list (string * value))
    (name key : string) (tbl : Table) (item : Item) :
  tables w !! name = Some tbl →
  only_key_changed w (logged w requests (<[name := <[key := item]> tbl]> (tables w))) name key.
Proof.
  intros Htbl. right. exists tbl, (<[key := item]> tbl).
  split; [exact Htbl|]. split; [reflexivity|].
  intros other Hother. by rewrite lookup_insert_ne.
Qed.

Lemma only_key_changed_delete (w : world) (requests : list (string * value))
    (name key : string) (tbl : Table) :
  tables w !! name = Some tbl →
  only_key_changed w (logged w requests (<[name := delete key tbl]> (tables w))) name key.
Proof.
  intros Htbl. right. exists tbl, (delete key tbl).
  split; [exact Htbl|]. split; [reflexivity|].
  intros other Hother. by rewrite lookup_delete_ne.
Qed.


Lemma get_only_key (self : t) (sid : string) (now : Z) (w : world) :
  only_key_changed w (get self sid now w).2 (table self) (prefix self +:+ sid).
Proof.
  destruct (tables w !! table self) as [tbl|] eqn:Htbl.
  - rewrite (get_served self sid now w tbl Htbl). cbn zeta.
    destruct (tbl !! (prefix self +:+ sid)) as [item|]; [|by left].
    destruct (stored_text item) as [text|].
    + destruct (JSON.parse text); by left.
    + by apply only_key_changed_delete.
  - rewrite (get_refused self sid now w Htbl). by left.
Qed.

Lemma set_only_key (self : t) (sid : string) (sess : value) (now : Z) (w : world) :
  only_key_changed w (set self sid sess now w).2 (table self) (prefix self +:+ sid).
Proof.
  destruct (cookie_missing sess) eqn:Hcookie.
  - destruct (params_throw self sid sess now Hcookie) as (msg & Hthrow & _).
    unfold set. rewrite Hthrow. by left.
  - destruct (tables w !! table self) as [tbl|] eqn:Htbl.
    + destruct (set_served self sid sess now w tbl Hcookie Htbl) as (text & _ & _ & Hset).
      cbn zeta in Hset. rewrite Hset. by apply only_key_changed_insert.
    + destruct (params_return self sid sess now Hcookie) as (text & _ & _ & Hparams & _).
      unfold set. rewrite Hparams, (putItem_refused self _ _ _ w Htbl). by left.
Qed.

Lemma touch_only_key (self : t) (sid : string) (sess : value) (now : Z) (w : world) :
  only_key_changed w (touch self sid sess now w).2 (table self) (prefix self +:+ sid).
Proof.
  destruct (cookie_missing sess) eqn:Hcookie.
  - destruct (params_throw self sid sess now Hcookie) as (msg & _ & Hthrow).
    unfold touch. rewrite Hthrow. by left.
  - destruct (tables w !! table self) as [tbl|] eqn:Htbl.
    + rewrite (touch_served self sid sess now w tbl Hcookie Htbl).
      by apply only_key_changed_insert.
    + destruct (params_return self sid sess now Hcookie) as (text & _ & _ & _ & Hparams).
      unfold touch. rewrite Hparams, (updateItem_refused self _ _ w Htbl). by left.
Qed.


Lemma only_key_changed_view (self : t) (w w' : world) (key sid : string) :
  only_key_changed w w' (table self) key →
  prefix self +:+ sid ≠ key →
  record_view self sid w' = record_view self sid w.
Proof.
  intros [Hsame | (tbl & tbl' & Htbl & Hnew & Hothers)] Hkey; unfold record_view.
  - by rewrite Hsame.
  - rewrite Hnew, lookup_insert_eq, Htbl. simpl. f_equal. by apply Hothers.
Qed.

(** How [get] ends depends on the world through the record of its
    session only. *)
Lemma get_by_view (self : t) (sid : string) (now now' : Z) (w w' : world) :
  record_view self sid w = record_view self sid w' →
  (get self sid now w).1 = (get self sid now' w').1.
Proof.
  unfold record_view. intros Hview.
  destruct (tables w !! table self) as [tbl|] eqn:Htbl;
    destruct (tables w' !! table self) as [tbl'|] eqn:Htbl'; simpl in Hview; try discriminate.
  - apply (inj Some) in Hview.
    rewrite (get_served self sid now w tbl Htbl), (get_served self sid now' w' tbl' Htbl').
    cbn zeta. rewrite Hview.
    destruct (tbl' !! (prefix self +:+ sid)) as [item|]; [|reflexivity].
    destruct (stored_text item) as [text|]; [|reflexivity].
    destruct (JSON.parse text); reflexivity.
  - by rewrite (get_refused self sid now w Htbl), (get_refused self sid now' w' Htbl').
Qed.

Lemma prefixed_inj (pre a b : string) : pre +:+ a = pre +:+ b → a = b.
Proof. induction pre as [|c pre IH]; simpl; [done|]. intros [=]. by apply IH. Qed.


(** X6: sessions do not see each other. A [set], a [touch] or a [get] of
    one session id, however it ends, leaves a [get] of any other session
    id ending as it would have ended without it: same error, same
    payload. *)
Theorem sessions_are_independent
    (self : t) (sid sid' : string) (sess : value) (now now' : Z) (w : world) :
  sid ≠ sid' →
  (get self sid' now' (set self sid sess now w).2).1 = (get self sid' now' w).1
  ∧ (get self sid' now' (touch self sid sess now w).2).1 = (get self sid' now' w).1
  ∧ (get self sid' now' (get self sid now w).2).1 = (get self sid' now' w).1.
Proof.
  intros Hsid.
  assert (Hkey : prefix self +:+ sid' ≠ prefix self +:+ sid)
    by (intros Heq; apply Hsid; symmetry; exact (prefixed_inj _ _ _ Heq)).
  repeat split; apply get_by_view.
  - exact (only_key_changed_view self _ _ _ sid' (set_only_key self sid sess now w) Hkey).
  - exact (only_key_changed_view self _ _ _ sid' (touch_only_key self sid sess now w) Hkey).
  - exact (only_key_changed_view self _ _ _ sid' (get_only_key self sid now w) Hkey).
Qed.

(** X7: on a table that exists [destroy] completes without error whether
    or not the key holds a record; afterwards the key holds none, and a
    second [destroy] of the same key completes the same way and changes
    no table. *)
Theorem destroy_is_idempotent (self : t) (key : string) (w : world) (tbl : Table) :
  tables w !! table self = Some tbl →
  let w1 := (destroy self key w).2 in
  (destroy self key w).1 = Called None (Obj [])
  ∧ raw_lookup w1 (table self) key = None
  ∧ (destroy self key w1).1 = Called None (Obj [])
  ∧ tables (destroy self key w1).2 = tables w1.
Proof.
  intros Htbl w1. subst w1.
  rewrite (destroy_served self key w tbl Htbl). cbn [fst snd].
  set (w1 := logged w _ _).
  assert (Htbl1 : tables w1 !! table self = Some (delete key tbl))
    by (subst w1; unfold logged; simpl; apply lookup_insert_eq).
  rewrite (destroy_served self key w1 _ Htbl1).
  cbn [fst snd]. split; [reflexivity|]. split.
  - unfold raw_lookup. rewrite Htbl1. simpl. apply lookup_delete_eq.
  - split; [reflexivity|]. unfold logged at 1. cbn [tables].
    rewrite delete_delete_eq. apply insert_id. exact Htbl1.
Qed.

(** X8: a [destroy] of the prefixed id followed by a [get] of the session
    gives a null payload and no error, whether or not the session had a
    record; the [get] sends its read and nothing else. With an empty
    prefix this is [destroy(sid)] followed by [get(sid)]. *)
Theorem get_after_destroy_of_prefixed_id_is_null
    (self : t) (sid : string) (now : Z) (w : world) (tbl : Table) :
  tables w !! table self = Some tbl →
  let w1 := (destroy self (prefix self +:+ sid) w).2 in
  (destroy self (prefix self +:+ sid) w).1 = Called None (Obj [])
  ∧ get self sid now w1 =
    (Called None Null, logged w1 [("getItem", get_params self sid)] (tables w1))
  ∧ (prefix self = "" → destroy self (prefix self +:+ sid) w = destroy self sid w).
Proof.
  intros Htbl w1. subst w1.
  rewrite (destroy_served self _ w tbl Htbl). cbn [fst snd].
  split; [reflexivity|]. split.
  - erewrite get_served; [|unfold logged; simpl; apply lookup_insert_eq].
    cbn zeta. by rewrite lookup_delete_eq.
  - intros Hprefix. rewrite Hprefix. cbn [String.append].
    by rewrite (destroy_served self sid w tbl Htbl).
Qed.

(** X9: a [sess] attribute of any type other than string counts for [get]
    as a missing one: the record is deleted under the prefixed id and the
    callback gets no error and a null payload. *)
Theorem get_destroys_record_with_payload_of_other_type
    (self : t) (sid : string) (now : Z) (w : world) (tbl : Table) (item : Item)
    (a : AttributeValue) :
  tables w !! table self = Some tbl →
  tbl !! (prefix self +:+ sid) = Some item →
  assoc "sess" item = Some a →
  (∀ text, a ≠ AV_S text) →
  let psid := prefix self +:+ sid in
  get self sid now w =
  (Called None Null,
   logged w [("getItem", get_params self sid); ("deleteItem", destroy_params self psid)]
     (<[table self := delete psid tbl]> (tables w)))
  ∧ raw_lookup (get self sid now w).2 (table self) psid = None.
Proof.
  intros Htbl Hitem Hsess Hother psid. subst psid.
  assert (Htext : stored_text item = None).
  { unfold stored_text. rewrite Hsess. destruct a; try reflexivity. by destruct (Hother s). }
  rewrite (get_served self sid now w tbl Htbl). cbn zeta. rewrite Hitem, Htext.
  split; [reflexivity|].
  unfold raw_lookup, logged. simpl. rewrite lookup_insert_eq. simpl. apply lookup_delete_eq.
Qed.

(** X10: of the payload [touch] uses [cookie.maxAge] and nothing else:
    two payloads with a cookie that declare the same age, or both none,
    give the same request, the same completion and the same tables. *)
Theorem touch_reads_only_the_cookie_age
    (self : t) (sid : string) (q q' : value) (now : Z) (w : world) :
  cookie_missing q = false →
  cookie_missing q' = false →
  numeric_maxAge q = numeric_maxAge q' →
  touch self sid q now w = touch self sid q' now w.
Proof.
  intros Hq Hq' Hage.
  destruct (params_return self sid q now Hq) as (_ & _ & _ & _ & Hparams).
  destruct (params_return self sid q' now Hq') as (_ & _ & _ & _ & Hparams').
  unfold touch. rewrite Hparams, Hparams'. unfold ttl_rule. by rewrite Hage.
Qed.

(** X11: a [touch] of a session that has no record does not fail: the
    update creates a record with the key and the expiry and no payload.
    The next [get] of the session finds no payload in it, deletes it and
    gives null. *)
Theorem touch_of_absent_session_leaves_no_payload
    (self : t) (sid : string) (q : value) (now now' : Z) (w : world) (tbl : Table) :
  tables w !! table self = Some tbl →
  tbl !! (prefix self +:+ sid) = None →
  cookie_missing q = false →
  let psid := prefix self +:+ sid in
  let w1 := (touch self sid q now w).2 in
  (touch self sid q now w).1 = Called None (Obj [])
  ∧ raw_lookup w1 (table self) psid
    = Some [("id", AV_S psid); ("expires", AV_N (Number_toString (ttl_rule now q)))]
  ∧ (get self sid now' w1).1 = Called None Null
  ∧ raw_lookup (get self sid now' w1).2 (table self) psid = None.
Proof.
  intros Htbl Hnone Hcookie psid w1. subst psid w1.
  rewrite (touch_served self sid q now w tbl Hcookie Htbl). cbn zeta. cbn [fst snd].
  rewrite Hnone. unfold touched. cbn [default].
  set (w1 := logged w _ _).
  assert (Htbl1 : tables w1 !! table self = Some (<[prefix self +:+ sid :=
              assign "expires" (AV_N (Number_toString (ttl_rule now q)))
                [("id", AV_S (prefix self +:+ sid))]]> tbl))
    by (subst w1; unfold logged; simpl; apply lookup_insert_eq).
  split; [reflexivity|]. split.
  { unfold raw_lookup. rewrite Htbl1. simpl. by rewrite lookup_insert_eq. }
  rewrite (get_served self sid now' w1 _ Htbl1). cbn zeta.
  rewrite lookup_insert_eq. cbn [fst snd].
  change (stored_text _) with (@None string). cbn [fst snd].
  split; [reflexivity|].
  unfold raw_lookup, logged. simpl. rewrite lookup_insert_eq. simpl. apply lookup_delete_eq.
Qed.

End frame.

(** ** Calls in a row *)

Section rows.
Context `{codec : JSON.Codec}.

(** X12: a second [get] of a session ends as the first did, whatever the
    clock says at either: the same payload, the same error, or null again
    after the first one deleted a record without payload. *)
Theorem get_again_gives_the_same
    (self : t) (sid : string) (now now' : Z) (w : world) :
  (get self sid now' (get self sid now w).2).1 = (get self sid now w).1.
Proof.
  destruct (tables w !! table self) as [tbl|] eqn:Htbl.
  - rewrite (get_served self sid now w tbl Htbl). cbn zeta.
    destruct (tbl !! (prefix self +:+ sid)) as [item|] eqn:Hitem.
    + destruct (stored_text item) as [text|] eqn:Htext.
      * assert (Hagain : (get self sid now' (logged w [("getItem", get_params self sid)]
                                               (tables w))).1 = (get self sid now' w).1)
          by (apply get_by_view; reflexivity).
        destruct (JSON.parse text) eqn:Hparse; cbn [fst snd]; rewrite Hagain;
          rewrite (get_served self sid now' w tbl Htbl); cbn zeta;
          by rewrite Hitem, Htext, Hparse.
      * cbn [fst snd]. erewrite get_served; [|unfold logged; simpl; apply lookup_insert_eq].
        cbn zeta. by rewrite lookup_delete_eq.
    + cbn [fst snd]. erewrite get_served; [|unfold logged; simpl; exact Htbl].
      cbn zeta. by rewrite Hitem.
  - rewrite (get_refused self sid now w Htbl). cbn [fst snd].
    by rewrite get_refused.
Qed.

(** X13: a [touch] with the payload a [set] has written leaves what a
    [set] of that payload at the time of the [touch] would have left: the
    same completion and the same tables. *)
Theorem touch_after_set_is_a_later_set
    (self : t) (sid : string) (p : value) (now now' : Z) (w w1 : world) (data : value) :
  set self sid p now w = (Called None data, w1) →
  (touch self sid p now' w1).1 = (set self sid p now' w).1
  ∧ tables (touch self sid p now' w1).2 = tables (set self sid p now' w).2.
Proof.
  intros Hset.
  destruct (set_succeeded _ _ _ _ _ _ _ Hset) as (Hcookie & tbl & Htbl).
  destruct (set_served self sid p now w tbl Hcookie Htbl) as (text & Htext & _ & Hset0).
  destruct (set_served self sid p now' w tbl Hcookie Htbl) as (text' & Htext' & _ & Hset1).
  assert (text' = text) as -> by congruence.
  cbn zeta in Hset0, Hset1. rewrite Hset0 in Hset. injection Hset as _ <-.
  rewrite Hset1.
  erewrite touch_served; [|exact Hcookie|unfold logged; simpl; apply lookup_insert_eq].
  cbn zeta. cbn [fst snd]. split; [reflexivity|].
  unfold logged. cbn [tables]. rewrite lookup_insert_eq.
  by rewrite !insert_insert_eq.
Qed.

End rows.

(** ** The private sweep helper *)

Section sweep.

Lemma listed_sid_at (self : t) (data : Private.scan_output) (i : nat) (item : Item) (s : string) :
  Private.Items data !! i = Some item →
  string_id item = Some s →
  Private.listed_sid self data (Z.of_nat i) =
  Return (Private.substring s (String.length (prefix self)) (String.length s)).
Proof.
  intros Hitem Hid. unfold Private.listed_sid, Private.item_at.
  destruct (Z.ltb_spec (Z.of_nat i) 0) as [?|_]; [lia|].
  rewrite Nat2Z.id, Hitem, Get_encode_item, bind_Return.
  unfold string_id in Hid. destruct (assoc "id" item) as [[]|]; try discriminate.
  apply (inj Some) in Hid. subst. reflexivity.
Qed.

Lemma listed_sid_past (self : t) (data : Private.scan_output) (i : nat) :
  Private.Items data !! i = None →
  Private.listed_sid self data (Z.of_nat i) =
  Throw (TypeError "Cannot read properties of undefined (reading 'id')").
Proof.
  intros Hitem. unfold Private.listed_sid, Private.item_at.
  destruct (Z.ltb_spec (Z.of_nat i) 0) as [?|_]; [lia|].
  rewrite Nat2Z.id, Hitem. reflexivity.
Qed.

Lemma stripped_cons (self : t) (item : Item) (items : list Item) (s : string) :
  string_id item = Some s →
  stripped self (item :: items) =
  Private.substring s (String.length (prefix self)) (String.length s) :: stripped self items.
Proof. intros Hid. unfold stripped. simpl. by rewrite Hid. Qed.

(** The helper walks the items in order: after [j] of them it is at index
    [i + j], in the world the [j] deletions leave. *)
Lemma destroyDataAt_steps (self : t) (data : Private.scan_output) :
  Forall (λ item, is_Some (string_id item)) (Private.Items data) →
  ∀ (j i fuel : nat) (w : world),
    (i + j ≤ List.length (Private.Items data))%nat →
    Z.of_nat (i + j) ≤ Private.Count data →
    (j ≤ fuel)%nat →
    Private.destroyDataAt self data fuel (Z.of_nat i) w =
    Private.destroyDataAt self data (fuel - j) (Z.of_nat (i + j))
      (destroyed_all self (stripped self (take j (drop i (Private.Items data)))) w).
Proof.
  intros Hids. induction j as [|j IH]; intros i fuel w Hlen Hcount Hfuel.
  - by rewrite Nat.sub_0_r, Nat.add_0_r.
  - destruct (lookup_lt_is_Some_2 (Private.Items data) i) as [item Hitem]; [lia|].
    destruct (proj1 (Forall_lookup _ _) Hids i item Hitem) as [s Hid].
    destruct fuel as [|fuel]; [lia|].
    rewrite (drop_S _ _ _ Hitem). rewrite firstn_cons.
    rewrite (stripped_cons self item _ s Hid).
    cbn [Private.destroyDataAt].
    destruct (Z.ltb_spec 0 (Private.Count data)) as [_|?]; [|lia].
    destruct (Z.ltb_spec (Z.of_nat i) (Private.Count data)) as [_|?]; [|lia].
    cbn [andb]. rewrite (listed_sid_at self data i item s Hitem Hid).
    destruct (destroy self _ w) as [c w1] eqn:Hdestroy.
    replace (Z.of_nat i + 1) with (Z.of_nat (S i)) by lia.
    rewrite (IH (S i) fuel w1) by lia.
    replace (S i + j)%nat with (i + S j)%nat by lia.
    replace (S fuel - S j)%nat with (fuel - j)%nat by lia.
    unfold destroyed_all. cbn [foldl]. by rewrite Hdestroy.
Qed.

Lemma destroyed_all_served (self : t) (keys : list string) :
  ∀ (w : world) (tbl : Table),
    tables w !! table self = Some tbl →
    destroyed_all self keys w =
    logged w (delete_requests self keys)
      (<[table self := foldl (λ tbl key, delete key tbl) tbl keys]> (tables w)).
Proof.
  unfold destroyed_all, delete_requests.
  induction keys as [|key keys IH]; intros w tbl Htbl; cbn [foldl map].
  - unfold logged. rewrite app_nil_r, insert_id by exact Htbl. by destruct w.
  - rewrite (destroy_served self key w tbl Htbl). cbn [snd].
    rewrite (IH _ (delete key tbl)) by (unfold logged; simpl; apply lookup_insert_eq).
    unfold logged. simpl. by rewrite insert_insert_eq, <- app_assoc.
Qed.

Lemma destroyed_all_refused (self : t) (keys : list string) :
  ∀ (w : world),
    tables w !! table self = None →
    destroyed_all self keys w = logged w (delete_requests self keys) (tables w).
Proof.
  unfold destroyed_all, delete_requests.
  induction keys as [|key keys IH]; intros w Htbl; cbn [foldl map].
  - unfold logged. rewrite app_nil_r. by destruct w.
  - rewrite (destroy_refused self key w Htbl). cbn [snd].
    rewrite IH by exact Htbl.
    unfold logged. simpl. by rewrite <- app_assoc.
Qed.

Lemma destroyed_all_log (self : t) (keys : list string) (w : world) :
  log (destroyed_all self keys w) = log w ++ delete_requests self keys.
Proof.
  destruct (tables w !! table self) as [tbl|] eqn:Htbl.
  - by rewrite (destroyed_all_served self keys w tbl Htbl).
  - by rewrite (destroyed_all_refused self keys w Htbl).
Qed.

Lemma lookup_deleted_all (keys : list string) :
  ∀ (tbl : Table) (key : string),
    foldl (λ tbl key, delete key tbl) tbl keys !! key =
    if bool_decide (key ∈ keys) then None else tbl !! key.
Proof.
  induction keys as [|k keys IH]; intros tbl key; cbn [foldl].
  - rewrite bool_decide_eq_false_2; [done|]. apply not_elem_of_nil.
  - rewrite IH. destruct (decide (key = k)) as [-> | Hne].
    + rewrite lookup_delete_eq. rewrite (bool_decide_eq_true_2 (k ∈ k :: keys)) by left.
      by destruct (bool_decide (k ∈ keys)).
    + rewrite lookup_delete_ne by done.
      destruct (decide (key ∈ keys)) as [Hin | Hnin].
      * rewrite !bool_decide_eq_true_2; [done | by right | done].
      * rewrite !bool_decide_eq_false_2; [done | | done].
        intros [?|?]%elem_of_cons; done.
Qed.

Lemma substring_whole (s : string) : String.substring 0 (String.length s) s = s.
Proof. induction s as [|c s IH]; simpl; [reflexivity | by rewrite IH]. Qed.

(** Stripping the prefix from a prefixed id gives the session id. *)
Lemma substring_prefixed (pre sid : string) :
  Private.substring (pre +:+ sid) (String.length pre) (String.length (pre +:+ sid)) = sid.
Proof.
  unfold Private.substring. rewrite append_length.
  rewrite (Nat.min_l (String.length pre)), Nat.min_id, Nat.min_l, Nat.max_r by lia.
  replace (String.length pre + String.length sid - String.length pre)%nat
    with (String.length sid) by lia.
  induction pre as [|c pre IH]; simpl; [apply substring_whole | exact IH].
Qed.

Lemma stripped_prefixed (self : t) (sids : list string) :
  stripped self (map (λ sid, [("id", AV_S (prefix self +:+ sid))]) sids) = sids.
Proof.
  induction sids as [|sid sids IH]; [reflexivity|].
  cbn [map]. rewrite (stripped_cons self _ _ (prefix self +:+ sid)) by reflexivity.
  by rewrite substring_prefixed, IH.
Qed.

(** On a scan output that lists no more items than it holds, each with a
    string id, the helper ends in a call of [fn], in the world the
    deletions leave. *)
Lemma private_destroy_served (self : t) (data : Private.scan_output) (w : world) :
  0 ≤ Private.Count data ≤ Z.of_nat (List.length (Private.Items data)) →
  Forall (λ item, is_Some (string_id item)) (Private.Items data) →
  Private.destroy self data w =
  Some (Called None Undefined,
        destroyed_all self
          (stripped self (take (Z.to_nat (Private.Count data)) (Private.Items data))) w).
Proof.
  intros Hcount Hids. set (n := Z.to_nat (Private.Count data)).
  unfold Private.destroy. fold n.
  pose proof (destroyDataAt_steps self data Hids n 0 n w) as Hsteps.
  change (Z.of_nat 0) with 0 in Hsteps. rewrite Hsteps by lia.
  rewrite Nat.sub_diag, drop_0. cbn [Private.destroyDataAt].
  destruct (Z.ltb_spec (Z.of_nat (0 + n)) (Private.Count data)) as [?|_]; [lia|].
  by rewrite andb_false_r.
Qed.

(** X14: given a scan output that lists no more items than it holds, each
    with a string id, the private helper asks for one deletion per listed
    item, in order, and then calls [fn] with no argument. The key of each
    deletion is the id of the item without its first characters, as many
    as the prefix has, so for a record of the store the bare session id
    and not the key the record is stored under. Those keys hold nothing
    afterwards; every other key holds what it held. *)
Theorem private_destroy_deletes_the_stripped_ids
    (self : t) (data : Private.scan_output) (w : world) (tbl : Table) :
  0 ≤ Private.Count data ≤ Z.of_nat (List.length (Private.Items data)) →
  Forall (λ item, is_Some (string_id item)) (Private.Items data) →
  tables w !! table self = Some tbl →
  let keys := stripped self (take (Z.to_nat (Private.Count data)) (Private.Items data)) in
  ∃ w', Private.destroy self data w = Some (Called None Undefined, w')
    ∧ log w' = log w ++ delete_requests self keys
    ∧ ∀ key, raw_lookup w' (table self) key =
             if bool_decide (key ∈ keys) then None else tbl !! key.
Proof.
  intros Hcount Hids Htbl keys. subst keys.
  eexists. split; [exact (private_destroy_served self data w Hcount Hids)|]. split.
  - apply destroyed_all_log.
  - intros key. rewrite (destroyed_all_served self _ w tbl Htbl).
    unfold raw_lookup, logged. simpl. rewrite lookup_insert_eq. simpl.
    apply lookup_deleted_all.
Qed.

(** X15: given a scan output whose count is more than the items it holds
    (each with a string id), the helper asks for the deletion of every
    item it holds and then throws a [TypeError] on reading the [id] of
    the item that is not there; [fn] is never called. *)
Theorem private_destroy_throws_past_the_items
    (self : t) (data : Private.scan_output) (w : world) :
  Z.of_nat (List.length (Private.Items data)) < Private.Count data →
  Forall (λ item, is_Some (string_id item)) (Private.Items data) →
  let keys := stripped self (Private.Items data) in
  ∃ w', Private.destroy self data w
        = Some (Threw (TypeError "Cannot read properties of undefined (reading 'id')"), w')
    ∧ log w' = log w ++ delete_requests self keys.
Proof.
  intros Hcount Hids keys. subst keys.
  set (n := List.length (Private.Items data)).
  exists (destroyed_all self (stripped self (Private.Items data)) w).
  split; [|apply destroyed_all_log].
  unfold Private.destroy.
  pose proof (destroyDataAt_steps self data Hids n 0 (Z.to_nat (Private.Count data)) w) as Hsteps.
  change (Z.of_nat 0) with 0 in Hsteps. rewrite Hsteps by lia.
  rewrite drop_0. subst n. rewrite firstn_all. set (n := List.length (Private.Items data)).

  destruct (Z.to_nat (Private.Count data) - n)%nat as [|fuel] eqn:Hfuel;
    cbn [Private.destroyDataAt];
    destruct (Z.ltb_spec 0 (Private.Count data)) as [_|?]; try lia;
    destruct (Z.ltb_spec (Z.of_nat (0 + n)) (Private.Count data)) as [_|?]; try lia;
    cbn [andb]; rewrite listed_sid_past; try reflexivity;
    apply lookup_ge_None_2; subst n; simpl; lia.
Qed.

(** X16: the helper and [destroy] do not meet. Given the records of the
    store as a scan lists them, each [id] the prefix followed by a
    session id, the helper strips the prefix and [destroy] deletes the
    bare session id it is handed. The record under a prefixed id is
    there afterwards as it was, unless the prefixed id is itself one of
    the listed session ids, as it is with an empty prefix. *)
Theorem private_destroy_misses_the_records_of_the_store
    (self : t) (sids : list string) (data : Private.scan_output) (w : world) (tbl : Table) :
  Private.Items data = map (λ sid, [("id", AV_S (prefix self +:+ sid))]) sids →
  Private.Count data = Z.of_nat (List.length sids) →
  tables w !! table self = Some tbl →
  ∃ w', Private.destroy self data w = Some (Called None Undefined, w')
    ∧ log w' = log w ++ delete_requests self sids
    ∧ ∀ sid, prefix self +:+ sid ∉ sids →
        raw_lookup w' (table self) (prefix self +:+ sid) = tbl !! (prefix self +:+ sid).
Proof.
  intros Hitems Hcount Htbl.
  assert (Hkeys : stripped self (take (Z.to_nat (Private.Count data)) (Private.Items data)) = sids).
  { rewrite Hitems, Hcount, Nat2Z.id.
    rewrite <- (length_map (λ sid, [("id", AV_S (prefix self +:+ sid))]) sids) at 1.
    rewrite firstn_all. apply stripped_prefixed. }
  eexists. split.
  - apply private_destroy_served.
    + rewrite Hitems, Hcount, length_map. lia.
    + rewrite Hitems. apply Forall_fmap, Forall_true. intros sid. by eexists.
  - rewrite Hkeys. split; [apply destroyed_all_log|].
    intros sid Hnin. rewrite (destroyed_all_served self _ w tbl Htbl).
    unfold raw_lookup, logged. simpl. rewrite lookup_insert_eq. simpl.
    rewrite lookup_deleted_all. by rewrite bool_decide_eq_false_2.
Qed.

Lemma listed_sid_throws (self : t) (data : Private.scan_output) (index : Z) (e : exn) :
  Private.listed_sid self data index = Throw e → ∃ msg, e = TypeError msg.
Proof.
  unfold Private.listed_sid.
  destruct (Private.item_at data index) as [| | | | | |props]; simpl;
    try (intros [= <-]; by eexists).
  destruct (default Undefined (assoc "id" props)) as [| | | | | |props']; simpl;
    try (intros [= <-]; by eexists).
  destruct (default Undefined (assoc "S" props')); simpl;
    try discriminate; intros [= <-]; by eexists.
Qed.

Lemma destroyDataAt_ends (self : t) (data : Private.scan_output) :
  ∀ (fuel : nat) (index : Z) (w : world),
    Private.Count data - index ≤ Z.of_nat fuel →
    ∃ c w' keys,
      Private.destroyDataAt self data fuel index w = Some (c, w')
      ∧ (c = Called None Undefined ∨ ∃ msg, c = Threw (TypeError msg))
      ∧ log w' = log w ++ delete_requests self keys
      ∧ (List.length keys ≤ fuel)%nat.
Proof.
  induction fuel as [|fuel IH]; intros index w Hfuel; cbn [Private.destroyDataAt].
  - destruct (Z.ltb_spec index (Private.Count data)) as [?|_]; [lia|].
    rewrite andb_false_r. exists (Called None Undefined), w, [].
    split; [reflexivity|]. split; [by left|]. split; [by rewrite app_nil_r | done].
  - destruct (_ && _).
    2:{ exists (Called None Undefined), w, [].
        split; [reflexivity|]. split; [by left|].
        split; [by rewrite app_nil_r | simpl; lia]. }
    destruct (Private.listed_sid self data index) as [sid|e] eqn:Hsid.
    2:{ destruct (listed_sid_throws self data index e Hsid) as [msg ->].
        exists (Threw (TypeError msg)), w, [].
        split; [reflexivity|]. split; [right; by eexists|].
        split; [by rewrite app_nil_r | simpl; lia]. }
    pose proof (destroyed_all_log self [sid] w) as Hlog.
    unfold destroyed_all in Hlog. cbn [foldl] in Hlog.
    destruct (destroy self sid w) as [c0 w1]. cbn [snd] in Hlog.
    destruct (IH (index + 1) w1) as (c & w' & keys & Hrun & Hend & Hlog' & Hlen); [lia|].
    exists c, w', (sid :: keys). split; [exact Hrun|]. split; [exact Hend|].
    split; [|simpl; lia].
    rewrite Hlog', Hlog. unfold delete_requests. cbn [map]. by rewrite <- app_assoc.
Qed.

(** X17: the helper ends on every scan output, and in one of two ways:
    it calls [fn] with no argument, or a [TypeError] escapes it. Until
    then it has sent deletions and nothing else, no more of them than the
    count says. *)
Theorem private_destroy_ends (self : t) (data : Private.scan_output) (w : world) :
  ∃ c w' keys,
    Private.destroy self data w = Some (c, w')
    ∧ (c = Called None Undefined ∨ ∃ msg, c = Threw (TypeError msg))
    ∧ log w' = log w ++ delete_requests self keys
    ∧ Z.of_nat (List.length keys) ≤ Z.max 0 (Private.Count data).
Proof.
  destruct (destroyDataAt_ends self data (Z.to_nat (Private.Count data)) 0 w)
    as (c & w' & keys & Hrun & Hend & Hlog & Hlen); [lia|].
  exists c, w', keys. split; [exact Hrun|]. split; [exact Hend|].
  split; [exact Hlog | lia].
Qed.

End sweep.

(** ** The constructor *)



(** ** The further properties on the run *)


Lemma sessions_are_independent_witness :
  (get Run.store "abc123" 3000 (set Run.store "xyz" Run.bob 2000 Run.written.2).2).1
  = (get Run.store "abc123" 3000 Run.written.2).1
  ∧ (get Run.store "abc123" 3000 Run.written.2).1 = Called None Run.alice.
Proof.
  destruct (sessions_are_independent (codec := JSONText.codec)
              Run.store "xyz" "abc123" Run.bob 2000 3000 Run.written.2)
    as (Hset & _); [discriminate|].
  split; [exact Hset | vm_compute; reflexivity].
Defined.

(** On the run: the record of "abc123", deleted twice by its key. *)
Lemma destroy_is_idempotent_witness :
  let w1 := (destroy Run.store "sess:abc123" Run.written.2).2 in
  raw_lookup Run.written.2 "sessions" "sess:abc123" = Some Witness.alice_item
  ∧ raw_lookup w1 "sessions" "sess:abc123" = None
  ∧ (destroy Run.store "sess:abc123" w1).1 = Called None (Obj [])
  ∧ tables (destroy Run.store "sess:abc123" w1).2 = tables w1.
Proof.
  cbv zeta. split; [vm_compute; reflexivity|].
  refine (proj2 (destroy_is_idempotent Run.store "sess:abc123" Run.written.2
                   Witness.alice_table _)).
  vm_compute; reflexivity.
Defined.

Lemma get_after_destroy_of_prefixed_id_is_null_witness :
  (get Run.store "abc123" 2000 Run.written.2).1 = Called None Run.alice
  ∧ (get Run.store "abc123" 2000 (destroy Run.store "sess:abc123" Run.written.2).2).1
    = Called None Null.
Proof.
  split; [vm_compute; reflexivity|].
  destruct (get_after_destroy_of_prefixed_id_is_null (codec := JSONText.codec)
              Run.store "abc123" 2000 Run.written.2 Witness.alice_table)
    as (_ & Hget & _); [vm_compute; reflexivity|].
  exact (f_equal fst Hget).
Defined.

(** On a record whose payload is a number. *)
Lemma get_destroys_record_with_payload_of_other_type_witness :
  (get Run.store "odd" 1000 Scans.odd).1 = Called None Null
  ∧ raw_lookup Scans.odd "sessions" "sess:odd" = Some Scans.odd_item
  ∧ raw_lookup (get Run.store "odd" 1000 Scans.odd).2 "sessions" "sess:odd" = None.
Proof.
  destruct (get_destroys_record_with_payload_of_other_type (codec := JSONText.codec)
              Run.store "odd" 1000 Scans.odd Scans.odd_table Scans.odd_item (AV_N "5"))
    as (Hget & Hgone);
    [vm_compute; reflexivity | vm_compute; reflexivity | vm_compute; reflexivity
    | discriminate |].
  split; [exact (f_equal fst Hget)|]. split; [vm_compute; reflexivity | exact Hgone].
Defined.

Lemma touch_reads_only_the_cookie_age_witness :
  touch Run.store "abc123" Run.alice 9000 Run.written.2
  = touch Run.store "abc123" Scans.mallory 9000 Run.written.2.
Proof.
  apply (touch_reads_only_the_cookie_age (codec := JSONText.codec)
           Run.store "abc123" Run.alice Scans.mallory 9000 Run.written.2);
    vm_compute; reflexivity.
Defined.

(** On the run: [touch("ghost", bob)] at 1000, then [get("ghost")]. *)
Lemma touch_of_absent_session_leaves_no_payload_witness :
  Witness.ghost.1 = Called None (Obj [])
  ∧ raw_lookup Witness.ghost.2 "sessions" "sess:ghost"
    = Some [("id", AV_S "sess:ghost"); ("expires", AV_N (Number_toString 86401000))]
  ∧ (get Run.store "ghost" 2000 Witness.ghost.2).1 = Called None Null
  ∧ raw_lookup (get Run.store "ghost" 2000 Witness.ghost.2).2 "sessions" "sess:ghost" = None.
Proof.
  apply (touch_of_absent_session_leaves_no_payload (codec := JSONText.codec)
           Run.store "ghost" Run.bob 1000 2000 Run.sessions.2 ∅); vm_compute; reflexivity.
Defined.

(** On the run: the helper on a scan that lists "sess:abc123" and
    "sess:xyz" deletes the keys "abc123" and "xyz". *)
Lemma private_destroy_deletes_the_stripped_ids_witness :
  ∃ w', Private.destroy Run.store Scans.listed Run.written.2 = Some (Called None Undefined, w')
    ∧ log w' = log Run.written.2 ++ delete_requests Run.store ["abc123"; "xyz"]
    ∧ ∀ key, raw_lookup w' "sessions" key =
             if bool_decide (key ∈ ["abc123"; "xyz"]) then None else Witness.alice_table !! key.
Proof.
  apply (private_destroy_deletes_the_stripped_ids
           Run.store Scans.listed Run.written.2 Witness.alice_table).
  - unfold Scans.listed. simpl. lia.
  - simpl. repeat (apply Forall_cons_2; [eexists; reflexivity|]). apply Forall_nil_2.
  - vm_compute; reflexivity.
Defined.

Lemma private_destroy_throws_past_the_items_witness :
  ∃ w', Private.destroy Run.store Scans.miscounted Run.written.2
        = Some (Threw (TypeError "Cannot read properties of undefined (reading 'id')"), w')
    ∧ log w' = log Run.written.2 ++ delete_requests Run.store ["abc123"; "xyz"].
Proof.
  apply (private_destroy_throws_past_the_items Run.store Scans.miscounted Run.written.2).
  - unfold Scans.miscounted. simpl. lia.
  - simpl. repeat (apply Forall_cons_2; [eexists; reflexivity|]). apply Forall_nil_2.
Defined.

(** On the run: the record of "abc123" survives the helper. *)
Lemma private_destroy_misses_the_records_of_the_store_witness :
  ∃ w', Private.destroy Run.store Scans.listed Run.written.2 = Some (Called None Undefined, w')
    ∧ log w' = log Run.written.2 ++ delete_requests Run.store ["abc123"; "xyz"]
    ∧ ∀ sid, prefix Run.store +:+ sid ∉ ["abc123"; "xyz"] →
        raw_lookup w' "sessions" (prefix Run.store +:+ sid)
        = Witness.alice_table !! (prefix Run.store +:+ sid).
Proof.
  apply (private_destroy_misses_the_records_of_the_store
           Run.store ["abc123"; "xyz"] Scans.listed Run.written.2 Witness.alice_table);
    vm_compute; reflexivity.
Defined.

(** On the run: [set("abc123", alice)] at 1000, then [touch] at 9000. *)
Lemma touch_after_set_is_a_later_set_witness :
  tables (touch Run.store "abc123" Run.alice 9000 Run.written.2).2
  = tables (set Run.store "abc123" Run.alice 9000 Run.sessions.2).2.
Proof.
  refine (proj2 (touch_after_set_is_a_later_set (codec := JSONText.codec)
                   Run.store "abc123" Run.alice 1000 9000 Run.sessions.2 Run.written.2
                   (Obj []) _)).
  vm_compute; reflexivity.
Defined.

(** ** JSON texts are read back *)

Section texts.
Import JSONText.
#[local] Arguments String.append !_ _ / : simpl nomatch.

Lemma digit_pretty_N_char (d : N) :
  (d < 10)%N → digit (pretty_N_char d) = Some (Z.of_N d).
Proof.
  intros Hd. unfold pretty_N_char.
  repeat (destruct d as [|d _] using N.peano_ind; [reflexivity|]; try lia).
Qed.

Lemma pretty_N_go_app (n : N) (s r : string) :
  pretty_N_go n s +:+ r = pretty_N_go n (s +:+ r).
Proof.
  revert s. induction (N.lt_wf_0 n) as [n _ IH]; intros s.
  destruct (decide (n = 0)%N) as [->|Hn].
  - by rewrite !pretty_N_go_0.
  - rewrite (pretty_N_go_step n s), (pretty_N_go_step n (s +:+ r)) by lia.
    rewrite IH by (apply N.div_lt; lia). reflexivity.
Qed.

Lemma take_digits_end (acc : Z) (rest : string) :
  ends_numeral rest = true → take_digits acc rest = (acc, rest).
Proof.
  destruct rest as [|c rest]; [reflexivity|]. simpl. unfold is_digit.
  destruct (digit c); [discriminate | reflexivity].
Qed.

Lemma leading_pretty_N_go (n : N) (s : string) :
  (0 < n)%N → leading (pretty_N_go n s) = Some (take_digits (Z.of_N n) s).
Proof.
  revert s. induction (N.lt_wf_0 n) as [n _ IH]; intros s Hn.
  rewrite pretty_N_go_step by exact Hn.
  destruct (decide (n `div` 10 = 0)%N) as [Hsmall|Hbig].
  - rewrite Hsmall, pretty_N_go_0.
    assert (Hlt : (n < 10)%N) by (apply N.div_small_iff; [discriminate | exact Hsmall]).
    clear Hsmall. rename Hlt into Hsmall.
    rewrite N.mod_small by exact Hsmall. cbn [leading].
    rewrite digit_pretty_N_char by exact Hsmall.
    destruct n as [|p]; [lia | reflexivity].
  - rewrite IH; [|apply N.div_lt; lia|by apply N.neq_0_lt_0]. cbn [take_digits].
    rewrite digit_pretty_N_char by (apply N.mod_lt; discriminate). do 2 f_equal.
    pose proof (N.div_mod n 10 ltac:(discriminate)). lia.
Qed.

Lemma natural_leading (s : string) :
  natural s = nr ← leading s; if continues_numeral nr.2 then None else Some nr.
Proof. destruct s as [|c s]; [reflexivity|]. simpl. by destruct (digit c). Qed.

Lemma ends_numeral_continues (rest : string) :
  ends_numeral rest = true → continues_numeral rest = false.
Proof.
  destruct rest as [|c rest]; [reflexivity|]. unfold ends_numeral.
  destruct (continues_numeral (String c rest)); [|reflexivity].
  by rewrite andb_false_r.
Qed.

Lemma natural_pretty_N (n : N) (rest : string) :
  ends_numeral rest = true → natural (pretty n +:+ rest) = Some (Z.of_N n, rest).
Proof.
  intros Hrest. rewrite natural_leading.
  assert (leading (pretty n +:+ rest) = Some (Z.of_N n, rest)) as ->.
  { unfold pretty, pretty_N. destruct (decide (n = 0)%N) as [->|Hn]; [reflexivity|].
    rewrite pretty_N_go_app, leading_pretty_N_go by lia.
    change ("" +:+ rest) with rest. by rewrite (take_digits_end _ _ Hrest). }
  cbn [mbind option_bind snd]. by rewrite (ends_numeral_continues _ Hrest).
Qed.

Lemma leading_head (s : string) (nr : Z * string) :
  leading s = Some nr → ∃ c s', s = String c s' ∧ is_digit c = true.
Proof.
  destruct s as [|c s]; [discriminate|]. simpl.
  destruct (digit c) eqn:E; [|discriminate]. intros _.
  exists c, s. split; [reflexivity|]. unfold is_digit. by rewrite E.
Qed.

Lemma is_digit_not_minus (c : ascii) : is_digit c = true → (N_of_ascii c =? 45)%N = false.
Proof.
  unfold is_digit, digit.
  destruct (_ && _) eqn:E; [|discriminate]. intros _.
  apply andb_true_iff in E as [H1 _]. apply N.leb_le in H1. apply N.eqb_neq. lia.
Qed.

Lemma pretty_N_head (n : N) :
  ∃ c s, pretty n = String c s ∧ is_digit c = true.
Proof.
  pose proof (natural_pretty_N n "" eq_refl) as Hnat.
  rewrite natural_leading in Hnat.
  destruct (leading (pretty n +:+ "")) as [nr|] eqn:Hlead; [|discriminate].
  destruct (leading_head _ _ Hlead) as (c & s' & Heq & Hc).
  destruct (pretty n) as [|c' s'']; [discriminate|].
  simpl in Heq. injection Heq as -> _. by eauto.
Qed.

Lemma number_pretty (n : Z) (rest : string) :
  ends_numeral rest = true → number (Number_toString n +:+ rest) = Some (n, rest).
Proof.
  intros Hrest. destruct n as [|p|p].
  - exact (natural_pretty_N 0 rest Hrest).
  - change (Number_toString (Z.pos p)) with (pretty (N.pos p)).
    destruct (pretty_N_head (N.pos p)) as (c & s & Heq & Hc).
    pose proof (natural_pretty_N (N.pos p) rest Hrest) as Hnat.
    rewrite Heq in *. change (String c s +:+ rest) with (String c (s +:+ rest)) in *.
    unfold number. by rewrite (is_digit_not_minus _ Hc).
  - change (number (Number_toString (Z.neg p) +:+ rest))
      with (nr ← natural (pretty (N.pos p) +:+ rest); Some (- nr.1, nr.2)).
    by rewrite (natural_pretty_N (N.pos p) rest Hrest).
Qed.

Lemma Number_toString_head (n : Z) :
  ∃ c s, Number_toString n = String c s ∧ starts_numeral c = true.
Proof.
  destruct n as [|p|p].
  - by eexists _, _.
  - change (Number_toString (Z.pos p)) with (pretty (N.pos p)).
    destruct (pretty_N_head (N.pos p)) as (c & s & Heq & Hc).
    exists c, s. split; [exact Heq|]. unfold starts_numeral. by rewrite Hc.
  - by eexists _, _.
Qed.

Lemma append_assoc (a b c : string) : (a +:+ b) +:+ c = a +:+ (b +:+ c).
Proof. induction a as [|x a IH]; simpl; [reflexivity | by rewrite IH]. Qed.

Lemma string_body_quote_char (c : ascii) (t : string) (s rest : string) :
  string_body t = Some (s, rest) →
  string_body (quote_char c +:+ t) = Some (String c s, rest).
Proof.
  intros Ht.
  destruct c as [[] [] [] [] [] [] [] []]; vm_compute quote_char;
    cbn [String.append string_body]; simpl; rewrite Ht; reflexivity.
Qed.

Lemma string_body_quote (s rest : string) :
  string_body (quote_chars s +:+ String dquote rest) = Some (s, rest).
Proof.
  induction s as [|c s IH]; [reflexivity|].
  cbn [quote_chars]. rewrite append_assoc. by apply string_body_quote_char.
Qed.

Lemma plain_serialize (v : value) : plain v = true → ∃ text, serialize v = Some text.
Proof. destruct v as [| |[]| | | |]; simpl; (discriminate || by eauto). Qed.

Lemma serialize_head (v : value) (text : string) :
  serialize v = Some text → ∃ c s, text = String c s ∧ starts_value c = true.
Proof.
  destruct v as [| |[]|n|s|l|m]; simpl; intros [= <-]; try (by eexists _, _).
  destruct (Number_toString_head n) as (c & s & -> & Hc).
  exists c, s. split; [reflexivity|]. unfold starts_value. by rewrite Hc.
Qed.

Lemma starts_value_no_space (c : ascii) :
  starts_value c = true →
  is_json_space c = false ∧ (N_of_ascii c =? 93)%N = false ∧ (N_of_ascii c =? 125)%N = false.
Proof. destruct c as [[] [] [] [] [] [] [] []]; vm_compute; by intuition. Qed.

Lemma element_numeral (fuel : nat) (c : ascii) (s : string) :
  starts_numeral c = true →
  element (S fuel) (String c s) = nr ← number (String c s); Some (Num nr.1, nr.2).
Proof.
  destruct c as [[] [] [] [] [] [] [] []]; vm_compute starts_numeral;
    intros Hc; try discriminate; reflexivity.
Qed.

Lemma element_text_plain (e : value) (text : string) :
  serialize e = Some text → element_text e = text.
Proof. unfold element_text. by intros ->. Qed.

Lemma elements_join (fuel : nat) (elems : list value) (rest : string) :
  (∀ fuel', (fuel' < fuel)%nat → reads fuel') →
  elems ≠ [] →
  (weight_elems elems ≤ fuel)%nat →
  forallb plain elems = true →
  elements fuel (join "," (map element_text elems) +:+ ("]" +:+ rest)) = Some (elems, rest).
Proof.
  intros IH. revert fuel IH.
  induction elems as [|e elems IHl]; intros fuel IH Hne Hweight Hplain; [done|].
  simpl in Hweight, Hplain. apply andb_true_iff in Hplain as [He Hrest].
  destruct fuel as [|fuel]; [lia|].
  destruct (plain_serialize e He) as (text & Htext).
  pose proof (IH fuel ltac:(lia) e text) as Hread.
  cbn [elements map]. rewrite (element_text_plain e text Htext).
  destruct elems as [|e' elems].
  - cbn [join map]. rewrite Hread by (done || lia). reflexivity.
  - change (join "," (text :: map element_text (e' :: elems)))
      with (text +:+ ("," +:+ join "," (map element_text (e' :: elems)))).
    rewrite !append_assoc. rewrite Hread by (done || lia).
    cbn [mbind option_bind fst snd]. cbn [String.append skip_space].
    change (is_json_space ",") with false. cbv iota.
    change (N_of_ascii "," =? 44)%N with true. cbv iota.
    rewrite IHl; [reflexivity | | done | | done].
    + intros fuel' Hlt. apply IH. lia.
    + fold weight_elems in Hweight. unfold weight_elems in *. simpl in *. lia.
Qed.

Lemma omap_member_text (props : list (string * value)) :
  forallb (λ kv, plain kv.2) props = true →
  omap (λ kv, (λ t, quote kv.1 +:+ ":" +:+ t) <$> serialize kv.2) props
  = map member_text props.
Proof.
  induction props as [|[k v] props IH]; [reflexivity|].
  cbn [forallb snd]. intros [Hv Hrest]%andb_true_iff.
  destruct (plain_serialize v Hv) as (text & Htext).
  cbn [omap list_omap map fst snd]. rewrite Htext, (IH Hrest).
  change (member_text (k, v)) with (quote k +:+ ":" +:+ element_text v).
  by rewrite (element_text_plain v text Htext).
Qed.

Lemma quote_app (k rest : string) :
  quote k +:+ rest = String dquote (quote_chars k +:+ String dquote rest).
Proof. unfold quote. simpl. by rewrite append_assoc. Qed.

Lemma members_join (fuel : nat) (props : list (string * value)) (rest : string) :
  (∀ fuel', (fuel' < fuel)%nat → reads fuel') →
  props ≠ [] →
  (weight_props props ≤ fuel)%nat →
  forallb (λ kv, plain kv.2) props = true →
  members fuel (join "," (map member_text props) +:+ ("}" +:+ rest)) = Some (props, rest).
Proof.
  intros IH. revert fuel IH.
  induction props as [|[k v] props IHl]; intros fuel IH Hne Hweight Hplain; [done|].
  simpl in Hweight, Hplain. apply andb_true_iff in Hplain as [Hv Hrest].
  destruct fuel as [|fuel]; [lia|].
  destruct (plain_serialize v Hv) as (text & Htext).
  pose proof (IH fuel ltac:(lia) v text) as Hread.
  cbn [map]. change (member_text (k, v)) with (quote k +:+ ":" +:+ element_text v).
  rewrite (element_text_plain v text Htext).
  destruct props as [|kv' props].
  - cbn [join map]. rewrite !append_assoc, quote_app.
    cbn [members skip_space]. change (is_json_space dquote) with false. cbv iota.
    change (N_of_ascii dquote =? 34)%N with true. cbv iota.
    rewrite string_body_quote. cbn [mbind option_bind fst snd].
    cbn [String.append skip_space]. change (is_json_space ":") with false. cbv iota.
    change (N_of_ascii ":" =? 58)%N with true. cbv iota.
    rewrite Hread by (done || lia). reflexivity.
  - change (join "," ((quote k +:+ ":" +:+ text) :: map member_text (kv' :: props)))
      with ((quote k +:+ ":" +:+ text) +:+ ("," +:+ join "," (map member_text (kv' :: props)))).
    rewrite !append_assoc, quote_app.
    cbn [members skip_space]. change (is_json_space dquote) with false. cbv iota.
    change (N_of_ascii dquote =? 34)%N with true. cbv iota.
    rewrite string_body_quote. cbn [mbind option_bind fst snd].
    cbn [String.append skip_space]. change (is_json_space ":") with false. cbv iota.
    change (N_of_ascii ":" =? 58)%N with true. cbv iota.
    rewrite Hread by (done || lia).
    cbn [mbind option_bind fst snd]. cbn [String.append skip_space].
    change (is_json_space ",") with false. cbv iota.
    change (N_of_ascii "," =? 44)%N with true. cbv iota.
    rewrite IHl; [reflexivity | | done | | done].
    + intros fuel' Hlt. apply IH. lia.
    + unfold weight_props in *. simpl in *. lia.
Qed.

Lemma assign_fresh (k : string) (v : value) (props : list (string * value)) :
  k ∉ map fst props → assign k v props = props ++ [(k, v)].
Proof.
  induction props as [|[k' v'] props IH]; [reflexivity|].
  cbn [map fst]. intros Hk. apply not_elem_of_cons in Hk as [Hne Hk]. simpl.
  destruct (String.eqb_spec k' k); [congruence|]. by rewrite IH.
Qed.

Lemma object_of_distinct (props acc : list (string * value)) :
  NoDup (map fst acc ++ map fst props) →
  fold_left (λ props kv, assign kv.1 kv.2 props) props acc = acc ++ props.
Proof.
  revert acc. induction props as [|[k v] props IH]; intros acc Hnd.
  - by rewrite app_nil_r.
  - cbn [fold_left fst snd]. rewrite assign_fresh.
    + rewrite IH; [by rewrite <- app_assoc|].
      rewrite map_app. cbn [map fst]. by rewrite <- app_assoc.
    + cbn [map fst] in Hnd. apply NoDup_app in Hnd as (_ & Hdisj & _).
      intros Hin. apply (Hdisj k Hin). by left.
Qed.

Lemma element_array (fuel : nat) (c : ascii) (s : string) :
  starts_value c = true →
  element (S fuel) (String "[" (String c s))
  = es ← elements fuel (String c s); Some (Arr es.1, es.2).
Proof.
  destruct c as [[] [] [] [] [] [] [] []]; vm_compute starts_value;
    intros Hc; try discriminate; reflexivity.
Qed.

Lemma element_object (fuel : nat) (c : ascii) (s : string) :
  (N_of_ascii c =? 34)%N = true →
  element (S fuel) (String "{" (String c s))
  = ms ← members fuel (String c s); Some (object_of ms.1, ms.2).
Proof.
  destruct c as [[] [] [] [] [] [] [] []]; vm_compute N.eqb;
    intros Hc; try discriminate; reflexivity.
Qed.

Lemma append_cons (c : ascii) (a b : string) : String c a +:+ b = String c (a +:+ b).
Proof. reflexivity. Qed.

Lemma join_head (t : string) (ts : list string) (c : ascii) (s : string) :
  t = String c s → ∃ s', join "," (t :: ts) = String c s'.
Proof. intros ->. destruct ts; simpl; by eauto. Qed.

Lemma serialize_Obj_eq (props : list (string * value)) :
  serialize (Obj props)
  = Some ("{" +:+ join "," (omap (λ kv, (λ t, quote kv.1 +:+ ":" +:+ t) <$> serialize kv.2) props)
              +:+ "}").
Proof. reflexivity. Qed.

Lemma reads_all (fuel : nat) : reads fuel.
Proof.
  induction fuel as [fuel IH] using lt_wf_ind.
  intros v text rest Hweight Hplain Htext Hrest.
  destruct fuel as [|fuel]; [destruct v; simpl in Hweight; lia|].
  destruct v as [| |[]|n|s|elems|props]; try discriminate;
    [cbn [serialize] in Htext; injection Htext as <- ..
    | rewrite serialize_Obj_eq in Htext; apply (inj Some) in Htext; subst text].
  - reflexivity.
  - reflexivity.
  - reflexivity.
  - destruct (Number_toString_head n) as (c & s & Heq & Hc).
    pose proof (number_pretty n rest Hrest) as Hnum.
    rewrite Heq in *. change (String c s +:+ rest) with (String c (s +:+ rest)) in *.
    by rewrite (element_numeral fuel c _ Hc), Hnum.
  - rewrite quote_app. cbn [element skip_space].
    change (is_json_space dquote) with false. cbv iota.
    change (N_of_ascii dquote) with 34%N. cbn [N.eqb Pos.eqb]. cbv iota.
    by rewrite string_body_quote.
  - destruct elems as [|e elems]; [reflexivity|].
    cbn [plain] in Hplain. cbn [weight] in Hweight. fold (weight_elems (e :: elems)) in Hweight.
    change (map (λ e, default "null" (serialize e)) (e :: elems))
      with (map element_text (e :: elems)).
    destruct (plain_serialize e) as (te & Hte);
      [by apply andb_true_iff in Hplain as [? _]|].
    destruct (serialize_head e te Hte) as (c & s & Hhead & Hc).
    pose proof (elements_join fuel (e :: elems) rest
                  (λ f Hf, IH f ltac:(lia)) ltac:(done) ltac:(lia) Hplain) as Hjoin.
    rewrite append_cons, append_assoc.
    destruct (join_head (element_text e) (map element_text elems) c s) as (s' & Hs').
    { by rewrite (element_text_plain e te Hte). }
    cbn [map] in *. rewrite Hs' in *.
    change (String c s' +:+ "]" +:+ rest) with (String c (s' +:+ "]" +:+ rest)) in *.
    by rewrite (element_array fuel c _ Hc), Hjoin.
  - destruct props as [|[k v] props]; [reflexivity|].
    cbn [plain] in Hplain. apply andb_true_iff in Hplain as [Hplain Hnd].
    apply bool_decide_eq_true in Hnd.
    cbn [weight] in Hweight. fold (weight_props ((k, v) :: props)) in Hweight.
    rewrite (omap_member_text _ Hplain).
    pose proof (members_join fuel ((k, v) :: props) rest
                  (λ f Hf, IH f ltac:(lia)) ltac:(done) ltac:(lia) Hplain) as Hjoin.
    rewrite !append_assoc, (append_cons "{" "").
    change ("" +:+ ?x) with x.
    destruct (join_head (member_text (k, v)) (map member_text props) dquote
                (quote_chars k +:+ String dquote (":" +:+ element_text v))) as (s' & Hs').
    { unfold member_text. cbn [fst snd]. by rewrite quote_app. }
    cbn [map] in *. rewrite Hs' in *.
    change (String dquote s' +:+ "}" +:+ rest) with (String dquote (s' +:+ "}" +:+ rest)) in *.
    rewrite (element_object fuel dquote _ eq_refl), Hjoin.
    cbn [mbind option_bind fst snd]. unfold object_of.
    by rewrite (object_of_distinct _ []).
Qed.

Lemma length_join_cons (t t' : string) (ts : list string) :
  String.length (join "," (t :: t' :: ts))
  = (String.length t + 1 + String.length (join "," (t' :: ts)))%nat.
Proof.
  change (join "," (t :: t' :: ts)) with (t +:+ "," +:+ join "," (t' :: ts)).
  rewrite !append_length. simpl. lia.
Qed.

Lemma weight_elems_length (elems : list value) :
  Forall (λ e, (weight e ≤ String.length (element_text e))%nat) elems →
  (weight_elems elems ≤ String.length (join "," (map element_text elems)) + 1)%nat.
Proof.
  induction 1 as [|e elems He Hall IH]; [simpl; lia|].
  destruct elems as [|e' elems]; [simpl in *; lia|].
  cbn [map] in *. rewrite length_join_cons.
  change (weight_elems (e :: e' :: elems)) with (S (weight e + weight_elems (e' :: elems))).
  lia.
Qed.

Lemma weight_props_length (props : list (string * value)) :
  Forall (λ kv, (weight kv.2 ≤ String.length (element_text kv.2))%nat) props →
  (weight_props props ≤ String.length (join "," (map member_text props)) + 1)%nat.
Proof.
  induction 1 as [|[k v] props Hv Hall IH]; [simpl; lia|].
  assert (Hm : (weight v ≤ String.length (member_text (k, v)))%nat).
  { unfold member_text. rewrite !append_length. simpl in *. lia. }
  destruct props as [|kv' props]; [simpl in *; lia|].
  cbn [map] in *. rewrite length_join_cons.
  change (weight_props ((k, v) :: kv' :: props)) with (S (weight v + weight_props (kv' :: props))).
  lia.
Qed.

Lemma weight_le_length (n : nat) (v : value) (text : string) :
  (weight v ≤ n)%nat → plain v = true → serialize v = Some text →
  (weight v ≤ String.length text)%nat.
Proof.
  revert v text. induction n as [|n IH]; intros v text Hn Hplain Htext.
  { destruct v; simpl in Hn; lia. }
  destruct v as [| |b|z|s0|elems|props];
    try (destruct (serialize_head _ _ Htext) as (c & s & -> & _); simpl; lia).
  - cbn [serialize] in Htext. apply (inj Some) in Htext. subst text.
    change (map (λ e, default "null" (serialize e)) elems) with (map element_text elems).
    rewrite !append_length. cbn [weight plain] in *. fold (weight_elems elems) in *.
    enough ((weight_elems elems ≤ String.length (join "," (map element_text elems)) + 1)%nat)
      by (simpl; lia).
    apply weight_elems_length.
    assert (Hle : (weight_elems elems ≤ n)%nat) by lia. clear Hn.
    induction elems as [|e elems IHl]; [constructor|].
    cbn [forallb] in Hplain. apply andb_true_iff in Hplain as [He Hrest].
    change (weight_elems (e :: elems)) with (S (weight e + weight_elems elems)) in Hle.
    constructor; [|apply IHl; [done | lia]].
    destruct (plain_serialize e He) as (te & Hte).
    rewrite (element_text_plain e te Hte). apply IH; [lia | done | done].
  - rewrite serialize_Obj_eq in Htext. apply (inj Some) in Htext. subst text.
    cbn [weight plain] in *. fold (weight_props props) in *.
    apply andb_true_iff in Hplain as [Hplain _].
    rewrite (omap_member_text _ Hplain), !append_length.
    enough ((weight_props props ≤ String.length (join "," (map member_text props)) + 1)%nat)
      by (simpl; lia).
    apply weight_props_length.
    assert (Hle : (weight_props props ≤ n)%nat) by lia. clear Hn.
    induction props as [|[k v] props IHl]; [constructor|].
    cbn [forallb snd] in Hplain. apply andb_true_iff in Hplain as [Hv Hrest].
    change (weight_props ((k, v) :: props)) with (S (weight v + weight_props props)) in Hle.
    constructor; [|apply IHl; [done | lia]].
    destruct (plain_serialize v Hv) as (tv & Htv). cbn [snd].
    rewrite (element_text_plain v tv Htv). apply IH; [lia | done | done].
Qed.

(** Every plain value is read back from its text. *)
Theorem deserialize_serialize (v : value) (text : string) :
  plain v = true → serialize v = Some text → deserialize text = Return v.
Proof.
  intros Hplain Htext. unfold deserialize.
  pose proof (weight_le_length (weight v) v text ltac:(lia) Hplain Htext) as Hlen.
  pose proof (reads_all (S (String.length text)) v text "" ltac:(lia) Hplain Htext eq_refl)
    as Hread.
  assert (text +:+ "" = text) as Happ.
  { clear. induction text as [|c t IH]; simpl; [reflexivity | by rewrite IH]. }
  rewrite Happ in Hread. by rewrite Hread.
Qed.

(** Plain values survive serialisation by [JSONText.codec]. *)
Corollary plain_serializable (v : value) :
  plain v = true → JSON.serializable (H := JSONText.codec) v.
Proof.
  intros Hplain. destruct (plain_serialize v Hplain) as (text & Htext).
  exists text. split; [exact Htext|]. by apply deserialize_serialize.
Qed.

(** With [JSONText.codec], what [get] hands over after [set] is the
    payload, for every plain payload and at every clock value. *)
Corollary get_after_set_returns_plain_payload
    (self : t) (sid : string) (p : value) (now now' : Z) (w w1 : world) (data : value) :
  plain p = true →
  set self sid p now w = (Called None data, w1) →
  (get self sid now' w1).1 = Called None p.
Proof.
  intros Hplain Hset.
  destruct (plain_serializable p Hplain) as (text & Htext & Hparse).
  destruct (get_after_set self sid p now now' w w1 data Hset) as (text' & Htext' & Hget).
  assert (text' = text) as -> by congruence.
  rewrite Hget. simpl. unfold JSON.parse in *. simpl in *. by rewrite Hparse.
Qed.

End texts.
